(** * Offer decision tree of the accounting-firm configurator (app.py)

    Shallow embedding of the two rule engines of [app.py],
    [infer_segment] and [compute_offers], together with the pricing
    catalogue they read, and the properties the specification states
    about them.

    Python values are modelled as follows: [int] is [Z], [str] is
    [string] (the UTF-8 bytes of the literal), [bool] is [bool], a list is
    a [list], the catalogue and the rationale dictionary are [gmap]s keyed
    by strings, the [seen] set of the deduplication loop is a [gset].  A
    failed dictionary lookup ([KeyError]) is [None] in the [option]
    monad. *)

From Stdlib Require Import ZArith String Ascii Bool Lia ZifyNat.
From Stdlib Require Import Decimal DecimalString DecimalZ DecimalPos.
From stdpp Require Import gmap strings list fin_maps.

Local Open Scope Z_scope.

(* ================================================================== *)
(** ** Data structures *)
(* ================================================================== *)

(** The [ClientProfile] dataclass. *)
Record ClientProfile := mkProfile {
  nom_client : string;
  secteur : string;
  nb_salaries : Z;
  presence_cadres : bool;
  type_contrats : string;
  rse_sensible : bool;
  rse_pollution : string;
  coaching_client : bool;
  patrimoine_dirigeant : string;
  particulier_fiscal : list string;
  caisse : bool;
  patrimoniale : bool;
  digitalisation : string;
  proche_retraite : string;
  succession_envisagee : bool;
  clients_particuliers_avec_tva : bool
}.


(** One entry of [PRICING_TABLE]: [{"libelle": ..., "prix": ...}]. *)
Record OfferInfo := mkInfo { info_libelle : string; info_prix : Z }.

Definition PRICING_TABLE : gmap string OfferInfo :=
  list_to_map [
    ("social_basique", mkInfo "Paie & obligations sociales - Pack Essentiel" 180);
    ("social_plus", mkInfo "Paie & RH - Pack Plus (audit + procédures)" 350);
    ("social_premium", mkInfo "Paie & RH - Pack Premium (SIRH + KPI sociaux)" 550);
    ("rse_diag", mkInfo "Diagnostic RSE & plan d'actions" 1200);
    ("rse_reporting", mkInfo "Reporting RSE/CSRD adapté TPE/PME" 450);
    ("coaching_light", mkInfo "Coaching dirigeant - Pack Starter (1h/mois)" 190);
    ("coaching_pro", mkInfo "Coaching dirigeant - Pack Pro (2h/mois + ateliers)" 390);
    ("patrimoine_base", mkInfo "Bilan patrimonial dirigeant" 900);
    ("patrimoine_avance", mkInfo "Ingénierie patrimoniale avancée (holdings/SCI/IF)" 1800);
    ("fiscal_part", mkInfo "Traitements fiscaux particuliers (notes spécifiques)" 380);
    ("tresorerie", mkInfo "Cash management & prévisionnels de trésorerie" 320);
    ("digital_start", mkInfo "Digitalisation - Starter (outils facturation, banque)" 150);
    ("digital_full", mkInfo "Digitalisation - Full (OCR, Hub, flux API)" 420);
    ("btp_pack", mkInfo "Pack BTP (suivi chantiers, retenues, DGD)" 350);
    ("gestion_budget", mkInfo "Tableaux de bord & budget (mensuel)" 280);
    ("revue_qualite", mkInfo "Revue Qualité comptable & fiscale (trimestrielle)" 240);
    ("succession", mkInfo "Anticipation transmission / pacte Dutreil (pré-étude)" 1200);
    ("retraite", mkInfo "Bilan retraite & optimisation (étude complète)" 750);
    ("international", mkInfo "International (TVA/DEB/DES/EMEA sanity check)" 650)
  ].

(** [x in l] on a Python list or tuple of strings. *)
Definition str_in (x : string) (l : list string) : bool :=
  existsb (String.eqb x) l.

(** [sep.join(l)]. *)
Fixpoint join (sep : string) (l : list string) : string :=
  match l with
  | [] => ""
  | x :: l' =>
      match l' with
      | [] => x
      | _ :: _ => x +:+ sep +:+ join sep l'
      end
  end.

(** [safe_add(dic, key, value)]: create the list on first use, then
    append to it. *)
Definition safe_add (dic : gmap string (list string)) (key value : string)
  : gmap string (list string) :=
  let dic := match dic !! key with
             | None => <[key := []]> dic
             | Some _ => dic
             end in
  alter (λ l, l ++ [value]) key dic.

(* ================================================================== *)
(** ** Segmentation engine *)
(* ================================================================== *)

(** The three local accumulators of [infer_segment]. *)
Record SegLocals := mkSeg {
  l_segment : list string;
  l_risk_flags : list string;
  l_intensity : string
}.

(** The dictionary returned by [infer_segment]. *)
Record SegmentResult := mkSegmentResult {
  segment : string;
  risk_flags : list string;
  compliance_intensity : string
}.

Definition seg_append (t : string) (s : SegLocals) : SegLocals :=
  mkSeg (l_segment s ++ [t]) (l_risk_flags s) (l_intensity s).

Definition flag_append (f : string) (s : SegLocals) : SegLocals :=
  mkSeg (l_segment s) (l_risk_flags s ++ [f]) (l_intensity s).

Definition set_intensity (c : string) (s : SegLocals) : SegLocals :=
  mkSeg (l_segment s) (l_risk_flags s) c.

(** [# Segment by size] *)
Definition seg_by_size (p : ClientProfile) (s : SegLocals) : SegLocals :=
  if (nb_salaries p =? 0) || String.eqb (type_contrats p) "Aucun salarié" then
    seg_append "Solo/Très petite structure" s
  else if nb_salaries p <? 11 then
    seg_append "TPE < 11" s
  else
    seg_append "PME ≥ 11" s.

(** [# Sector specifics] *)
Definition seg_sector (p : ClientProfile) (s : SegLocals) : SegLocals :=
  let s := if String.eqb (secteur p) "BTP" then
             set_intensity "Renforcée"
               (flag_append "Gestion des chantiers et retenues de garantie"
                  (seg_append "BTP" s))
           else s in
  let s := if String.eqb (secteur p) "E-commerce" then
             flag_append "TVA OSS/IOSS et plateformes" s
           else s in
  if String.eqb (secteur p) "Industrie" then
    flag_append "Stocks et immo complexes" s
  else s.

(** [# HR complexity] *)
Definition seg_hr (p : ClientProfile) (s : SegLocals) : SegLocals :=
  if nb_salaries p >? 0 then
    let s := if presence_cadres p then flag_append "Cadres & forfait jours" s
             else s in
    if nb_salaries p >=? 11 then
      set_intensity "Renforcée"
        (flag_append "CSE / obligations sociales renforcées" s)
    else s
  else s.

(** [# RSE] *)
Definition seg_rse (p : ClientProfile) (s : SegLocals) : SegLocals :=
  if rse_sensible p then
    if String.eqb (rse_pollution p) "Importante" then
      flag_append "Enjeux environnementaux critiques" s
    else if String.eqb (rse_pollution p) "Moyenne" then
      flag_append "Suivi empreinte & conformité environnementale" s
    else s
  else s.

(** [# Digital] *)
Definition seg_digital (p : ClientProfile) (s : SegLocals) : SegLocals :=
  if String.eqb (digitalisation p) "Pas informatique" then
    flag_append "Faible digitalisation (risque d'erreurs et coûts)" s
  else if String.eqb (digitalisation p) "Informatique rudimentaire" then
    flag_append "Digitalisation partielle à structurer" s
  else s.

(** [# Dirigeant / Transmission] *)
Definition seg_transmission (p : ClientProfile) (s : SegLocals) : SegLocals :=
  let s := if str_in (proche_retraite p) ["À 5 ans"; "< 2 ans"] then
             flag_append "Horizon retraite à anticiper" s
           else s in
  if succession_envisagee p then
    flag_append "Projet de succession / transmission" s
  else s.

(** [# Particularités fiscales] *)
Definition seg_fiscal (p : ClientProfile) (s : SegLocals) : SegLocals :=
  let s := if str_in "International" (particulier_fiscal p) then
             set_intensity "Renforcée"
               (flag_append "Flux internationaux (prix de transfert/TVA)" s)
           else s in
  let s := if str_in "Holding" (particulier_fiscal p)
              || str_in "SCI" (particulier_fiscal p) then
             flag_append "Groupe / structuration patrimoniale" s
           else s in
  if clients_particuliers_avec_tva p then
    flag_append "Risque TVA B2C (règles spécifiques)" s
  else s.

(** The locals of [infer_segment] when it reaches its [return]. *)
Definition infer_locals (p : ClientProfile) : SegLocals :=
  let s := mkSeg [] [] "Standard" in
  let s := seg_by_size p s in
  let s := seg_sector p s in
  let s := seg_hr p s in
  let s := seg_rse p s in
  let s := seg_digital p s in
  let s := seg_transmission p s in
  seg_fiscal p s.

Definition infer_segment (p : ClientProfile) : SegmentResult :=
  let s := infer_locals p in
  {| segment := match l_segment s with
                | [] => "Standard"
                | _ :: _ => join " | " (l_segment s)
                end;
     risk_flags := l_risk_flags s;
     compliance_intensity := l_intensity s |}.

(* ================================================================== *)
(** ** Offer engine *)
(* ================================================================== *)

(** One element of the offer list:
    [{"code": ..., "libelle": ..., "prix": ...}]. *)
Record Offer := mkOffer { code : string; libelle : string; prix : Z }.

(** The two local accumulators that the closure [add_offer] mutates. *)
Record Locals := mkLocals {
  st_offers : list Offer;
  st_rationales : gmap string (list string)
}.

(** The dictionary returned by [compute_offers]. *)
Record OfferResult := mkOfferResult {
  offers : list Offer;
  rationales : gmap string (list string);
  total_ht : Z
}.

(** A block of statements of [compute_offers]: it transforms the state it
    runs on, or raises. *)
Definition Block (St : Type) := St → option St.

Definition pass {St} : Block St := Some.

Definition seq {St} (b1 b2 : Block St) : Block St := λ st, b1 st ≫= b2.

Declare Scope block_scope.
Delimit Scope block_scope with block.
Notation "b1 ;; b2" := (seq b1 b2)
  (at level 100, b2 at level 200, right associativity) : block_scope.

(** The rules reach the locals only through the closure [add_offer], so
    the blocks are written over any [add_offer]: [compute_offers] runs
    them with the closure of the source, the proofs also run them with a
    recorder of the calls. *)
Section Rules.
Context {St : Type} (add_offer : string → string → Block St).

(** [# Social / HR] *)
Definition rules_social (p : ClientProfile) : Block St :=
  if nb_salaries p >? 0 then
    ((if (nb_salaries p >=? 11) || presence_cadres p then
        add_offer "social_plus" "≥ 11 salariés et/ou présence de cadres"
      else
        add_offer "social_basique" "Paie et obligations sociales standard") ;;
     (if nb_salaries p >=? 25 then
        add_offer "social_premium" "Effectif significatif → SIRH & KPI sociaux"
      else pass))%block
  else pass.

(** [# RSE] *)
Definition rules_rse (p : ClientProfile) : Block St :=
  if rse_sensible p then
    (add_offer "rse_diag" "Client sensible RSE → diagnostic & plan d'actions" ;;
     (if str_in (rse_pollution p) ["Moyenne"; "Importante"] then
        add_offer "rse_reporting"
          "Suivi des indicateurs RSE (empreinte, énergie, déchets)"
      else pass))%block
  else pass.

(** [# Coaching dirigeant] *)
Definition rules_coaching (p : ClientProfile) : Block St :=
  ((if coaching_client p && String.eqb (patrimoine_dirigeant p) "Modeste" then
      add_offer "coaching_light" "Accompagnement dirigeant régulier (starter)"
    else pass) ;;
   (if coaching_client p && String.eqb (patrimoine_dirigeant p) "Important" then
      add_offer "coaching_pro"
        "Accompagnement renforcé pour enjeux stratégiques"
    else pass))%block.

(** [# Patrimonial] *)
Definition rules_patrimonial (p : ClientProfile) : Block St :=
  ((if patrimoniale p || String.eqb (patrimoine_dirigeant p) "Important" then
      add_offer "patrimoine_base" "Besoin patrimonial identifié"
    else pass) ;;
   (if (str_in "Holding" (particulier_fiscal p)
        || str_in "SCI" (particulier_fiscal p))
       && (patrimoniale p
           || String.eqb (patrimoine_dirigeant p) "Important") then
      add_offer "patrimoine_avance" "Structuration groupe / immo patrimonial"
    else pass))%block.

(** [# Particularités fiscales] *)
Definition rules_fiscal (p : ClientProfile) : Block St :=
  if Z.of_nat (length (particulier_fiscal p)) >? 0 then
    (add_offer "fiscal_part" "Cas fiscaux spécifiques à documenter" ;;
     (if str_in "International" (particulier_fiscal p) then
        add_offer "international"
          "Flux intracommunautaires / export → contrôles dédiés"
      else pass))%block
  else pass.

(** [# Cash / gestion] *)
Definition rules_gestion (p : ClientProfile) : Block St :=
  ((if caisse p || str_in (secteur p) ["E-commerce"; "Industrie"; "BTP"] then
      add_offer "tresorerie" "Volatilité de trésorerie / besoin de pilotage"
    else pass) ;;
   add_offer "gestion_budget"
     "Tableaux de bord et budget mensuel utiles à tout profil PME/TPE" ;;
   add_offer "revue_qualite" "Sécuriser la qualité comptable et fiscale")%block.

(** [# Digitalisation] *)
Definition rules_digital (p : ClientProfile) : Block St :=
  if String.eqb (digitalisation p) "Pas informatique" then
    add_offer "digital_start" "Mettre en place la base des outils digitaux"
  else if String.eqb (digitalisation p) "Informatique rudimentaire" then
    add_offer "digital_full"
      "Structurer et automatiser les flux (OCR/API/Banque)"
  else pass.

(** [# Sector packs] *)
Definition rules_sector (p : ClientProfile) : Block St :=
  if String.eqb (secteur p) "BTP" then
    add_offer "btp_pack" "Spécificités chantiers (retenues, situations, DGD)"
  else pass.

(** [# Transmission / retraite] *)
Definition rules_transmission (p : ClientProfile) : Block St :=
  ((if str_in (proche_retraite p) ["À 5 ans"; "< 2 ans"] then
      add_offer "retraite" "Horizon de départ → bilan retraite & options"
    else pass) ;;
   (if succession_envisagee p then
      add_offer "succession"
        "Projet de transmission → pré-étude Dutreil/holding"
    else pass))%block.

(** All the rules of [compute_offers], in the order of the source. *)
Definition compute_rules (p : ClientProfile) : Block St :=
  (rules_social p ;;
   rules_rse p ;;
   rules_coaching p ;;
   rules_patrimonial p ;;
   rules_fiscal p ;;
   rules_gestion p ;;
   rules_digital p ;;
   rules_sector p ;;
   rules_transmission p)%block.

(** A sequence of calls of [add_offer], one per (code, reason) pair. *)
Fixpoint add_all (l : list (string * string)) : Block St :=
  match l with
  | [] => pass
  | cr :: l' => (add_offer cr.1 cr.2 ;; add_all l')%block
  end.

End Rules.

(** A block makes the calls [l] of [add_offer] when running it is running
    the calls one after the other. *)
Definition makes {St} (add_offer : string → string → Block St)
  (b : Block St) (l : list (string * string)) : Prop :=
  ∀ st, b st = add_all add_offer l st.

(** The closure [add_offer(code, reason)] of [compute_offers];
    [PRICING_TABLE[code]] raises [KeyError] for a code that is not a key
    of the catalogue. *)
Definition add_offer (code reason : string) : Block Locals := λ st,
  match PRICING_TABLE !! code with
  | None => None
  | Some info =>
      Some {| st_offers :=
                st_offers st
                ++ [mkOffer code (info_libelle info) (info_prix info)];
              st_rationales :=
                safe_add (st_rationales st) (info_libelle info) reason |}
  end.

(** The locals after the rules, before the deduplication loop. *)
Definition raw_locals (p : ClientProfile) : option Locals :=
  compute_rules add_offer p (mkLocals [] ∅).

(** One iteration of the loop [for o in offers] that deduplicates by
    code; the accumulator is the pair [(seen, unique_offers)]. *)
Definition dedup_step (acc : gset string * list Offer) (o : Offer)
  : gset string * list Offer :=
  if decide (code o ∈ acc.1) then acc
  else (acc.1 ∪ {[code o]}, acc.2 ++ [o]).

Definition deduplicate (os : list Offer) : list Offer :=
  (foldl dedup_step (∅, []) os).2.

(** [sum(o["prix"] for o in l)]. *)
Definition sum_prix (l : list Offer) : Z :=
  foldl (λ acc o, acc + prix o) 0 l.

Definition compute_offers (p : ClientProfile) : option OfferResult :=
  st ← raw_locals p;
  let unique_offers := deduplicate (st_offers st) in
  let total := sum_prix unique_offers in
  Some {| offers := unique_offers;
          rationales := st_rationales st;
          total_ht := total |}.

(** The variant of [compute_offers] without the deduplication loop: it
    returns the raw list and sums the prices over it. *)
Definition compute_offers_raw (p : ClientProfile) : option OfferResult :=
  st ← raw_locals p;
  Some {| offers := st_offers st;
          rationales := st_rationales st;
          total_ht := sum_prix (st_offers st) |}.

(** The recorder: an [add_offer] that only logs its arguments. *)
Definition record_call (code reason : string)
  : Block (list (string * string)) :=
  λ log, Some (log ++ [(code, reason)]).

(** The calls of [add_offer] that a block makes, in order. *)
Definition calls (b : Block (list (string * string)))
  : list (string * string) :=
  default [] (b []).

Definition fired_social p := calls (rules_social record_call p).
Definition fired_rse p := calls (rules_rse record_call p).
Definition fired_coaching p := calls (rules_coaching record_call p).
Definition fired_patrimonial p := calls (rules_patrimonial record_call p).
Definition fired_fiscal p := calls (rules_fiscal record_call p).
Definition fired_gestion p := calls (rules_gestion record_call p).
Definition fired_digital p := calls (rules_digital record_call p).
Definition fired_sector p := calls (rules_sector record_call p).
Definition fired_transmission p := calls (rules_transmission record_call p).

(** The (code, reason) pairs of the rules that fire on [p]. *)
Definition fired (p : ClientProfile) : list (string * string) :=
  fired_social p ++ fired_rse p ++ fired_coaching p ++ fired_patrimonial p
  ++ fired_fiscal p ++ fired_gestion p ++ fired_digital p ++ fired_sector p
  ++ fired_transmission p.

(** The codes that the rules of each block can emit, in source order. *)
Definition codes_social := ["social_plus"; "social_basique"; "social_premium"].
Definition codes_rse := ["rse_diag"; "rse_reporting"].
Definition codes_coaching := ["coaching_light"; "coaching_pro"].
Definition codes_patrimonial := ["patrimoine_base"; "patrimoine_avance"].
Definition codes_fiscal := ["fiscal_part"; "international"].
Definition codes_gestion := ["tresorerie"; "gestion_budget"; "revue_qualite"].
Definition codes_digital := ["digital_start"; "digital_full"].
Definition codes_sector := ["btp_pack"].
Definition codes_transmission := ["retraite"; "succession"].

Definition rule_codes : list string :=
  codes_social ++ codes_rse ++ codes_coaching ++ codes_patrimonial
  ++ codes_fiscal ++ codes_gestion ++ codes_digital ++ codes_sector
  ++ codes_transmission.

(** The price the catalogue gives to a code. *)
Global Arguments PRICING_TABLE : simpl never.

Definition catalogue_prix (c : string) : option Z :=
  info_prix <$> PRICING_TABLE !! c.

(** The sum of the catalogue prices of a list of codes. *)
Definition catalogue_total (cs : list string) : option Z :=
  ps ← mapM catalogue_prix cs; Some (foldr Z.add 0 ps).

(** An offer is justified in a rationale mapping when its label is a key
    with a non-empty list of reasons. *)
Definition justified (m : gmap string (list string)) (o : Offer) : Prop :=
  ∃ rs, m !! libelle o = Some rs ∧ rs ≠ [].

(** An offer is an entry of the catalogue when the catalogue maps its code
    to its label and price. *)
Definition priced (o : Offer) : Prop :=
  PRICING_TABLE !! code o = Some (mkInfo (libelle o) (prix o)).

(** The deduplication as a recursive function: skip the codes already
    seen, keep the others. *)
Fixpoint keep_first (seen : gset string) (os : list Offer) : list Offer :=
  match os with
  | [] => []
  | o :: os' =>
      if decide (code o ∈ seen) then keep_first seen os'
      else o :: keep_first (seen ∪ {[code o]}) os'
  end.

(** [label.split(sep)], for a separator of at least one character:
    [skip] counts the characters of a separator still to drop, [cur] is
    the tag being read. *)
Fixpoint split_from (sep : string) (skip : nat) (cur s : string)
  : list string :=
  match s with
  | EmptyString => [cur]
  | String c s' =>
      match skip with
      | S k => split_from sep k cur s'
      | O =>
          if String.prefix sep s then
            cur :: split_from sep (Nat.pred (String.length sep)) "" s'
          else split_from sep O (cur +:+ String c "") s'
      end
  end.

Definition split (sep s : string) : list string := split_from sep O "" s.

(** The three size tags of the segment label. *)
Definition size_tags : list string :=
  ["Solo/Très petite structure"; "TPE < 11"; "PME ≥ 11"].

Definition is_size_tag (t : string) : bool := str_in t size_tags.

(** The size tags that can be read back from a segment label. *)
Definition size_tags_of (label : string) : list string :=
  List.filter is_size_tag (split " | " label).

(** The guard of the first branch of the size classification. *)
Definition solo_case (p : ClientProfile) : Prop :=
  nb_salaries p = 0 ∨ type_contrats p = "Aucun salarié".

(** The profile of scenario A; the name of the client and the contract
    type are left open. *)
Definition scenario_A (nom contrats : string) : ClientProfile :=
  {| nom_client := nom; secteur := "Services"; nb_salaries := 0;
     presence_cadres := false; type_contrats := contrats;
     rse_sensible := false; rse_pollution := "Faible/Non";
     coaching_client := false; patrimoine_dirigeant := "Modeste";
     particulier_fiscal := []; caisse := false; patrimoniale := false;
     digitalisation := "Informatique rudimentaire";
     proche_retraite := "Loin"; succession_envisagee := false;
     clients_particuliers_avec_tva := false |}.

(* ================================================================== *)
(** ** The vocabularies and the form *)
(* ================================================================== *)

Definition SECTEURS : list string :=
  ["BTP"; "Commerce"; "Services"; "Industrie"; "Agricole";
   "Professions libérales"; "E-commerce"; "Autre"].
Definition CONTRATS : list string := ["Aucun salarié"; "CDD"; "CDI"; "Mixte"].
Definition POLLUTION : list string := ["Faible/Non"; "Moyenne"; "Importante"].
Definition PATRIMOINE : list string := ["Modeste"; "Important"].
Definition DIGITAL : list string :=
  ["Pas informatique"; "Informatique rudimentaire"; "Informatique avancée"].
Definition HORIZON_RETRAITE : list string := ["Loin"; "À 5 ans"; "< 2 ans"].

(** The options of the multiselect "Particularités fiscales". *)
Definition FISCAL_OPTIONS : list string :=
  ["TVA particuliers"; "Crédit d'impôt"; "JEI"; "ZFU/ZRR"; "LMNP";
   "International"; "BIC/BNC mixte"; "Holding"; "SCI"].

(** The values that the widgets of the sidebar return. *)
Record FormInput := mkForm {
  f_nom_client : string;
  f_secteur : string;
  f_nb_salaries : Z;
  f_presence_cadres : bool;
  f_type_contrats : string;
  f_rse_sensible : bool;
  f_rse_pollution : string;
  f_coaching_client : bool;
  f_patrimoine_dirigeant : string;
  f_particulier_fiscal : list string;
  f_caisse : bool;
  f_patrimoniale : bool;
  f_digitalisation : string;
  f_proche_retraite : string;
  f_succession_envisagee : bool;
  f_clients_particuliers_avec_tva : bool
}.

(** What the widgets can return: [number_input] stays within its
    [min_value] and [max_value], a [selectbox] returns one of its options,
    the [multiselect] returns some of its options, each at most once. *)
Definition form_valid (f : FormInput) : Prop :=
  0 ≤ f_nb_salaries f ≤ 1000
  ∧ f_secteur f ∈ SECTEURS
  ∧ f_type_contrats f ∈ CONTRATS
  ∧ f_rse_pollution f ∈ POLLUTION
  ∧ f_patrimoine_dirigeant f ∈ PATRIMOINE
  ∧ f_digitalisation f ∈ DIGITAL
  ∧ f_proche_retraite f ∈ HORIZON_RETRAITE
  ∧ f_particulier_fiscal f ⊆ FISCAL_OPTIONS
  ∧ NoDup (f_particulier_fiscal f).

(** The defaults that the script computes from the other answers: the
    default option of the selectbox "Type de contrats" and the default
    values of the toggles "Besoin suivi trésorerie" and "Besoin
    d'ingénierie patrimoniale". *)
Definition default_type_contrats (nb_salaries : Z) : string :=
  nth (if nb_salaries =? 0 then 0%nat else 3%nat) CONTRATS "".

Definition default_caisse (secteur : string) : bool :=
  if str_in secteur ["E-commerce"; "BTP"; "Industrie"] then true else false.

Definition default_patrimoniale (patrimoine_dirigeant : string) : bool :=
  String.eqb patrimoine_dirigeant "Important".

(** The statement [profile = ClientProfile(...)] of the script. *)
Definition build_profile (f : FormInput) : ClientProfile :=
  {| nom_client := f_nom_client f;
     secteur := f_secteur f;
     nb_salaries := f_nb_salaries f;
     presence_cadres := f_presence_cadres f;
     type_contrats := f_type_contrats f;
     rse_sensible := f_rse_sensible f;
     rse_pollution := f_rse_pollution f;
     coaching_client := f_coaching_client f;
     patrimoine_dirigeant := f_patrimoine_dirigeant f;
     particulier_fiscal :=
       List.filter (λ x, negb (String.eqb x "TVA particuliers"))
         (f_particulier_fiscal f);
     caisse := f_caisse f;
     patrimoniale := f_patrimoniale f;
     digitalisation := f_digitalisation f;
     proche_retraite := f_proche_retraite f;
     succession_envisagee := f_succession_envisagee f;
     clients_particuliers_avec_tva :=
       str_in "TVA particuliers" (f_particulier_fiscal f)
       || f_clients_particuliers_avec_tva f |}.

(* ================================================================== *)
(** ** Tables used to state the properties of the engines *)
(* ================================================================== *)

(** The risk flags that a block of [infer_segment] appends. *)
Definition flags_of (b : SegLocals → SegLocals) : list string :=
  l_risk_flags (b (mkSeg [] [] "Standard")).

Definition flags_sector p := flags_of (seg_sector p).
Definition flags_hr p := flags_of (seg_hr p).
Definition flags_rse p := flags_of (seg_rse p).
Definition flags_digital p := flags_of (seg_digital p).
Definition flags_transmission p := flags_of (seg_transmission p).
Definition flags_fiscal p := flags_of (seg_fiscal p).

(** The risk flags of the rules, in source order, block by block. *)
Definition all_flags_sector :=
  ["Gestion des chantiers et retenues de garantie";
   "TVA OSS/IOSS et plateformes"; "Stocks et immo complexes"].
Definition all_flags_hr :=
  ["Cadres & forfait jours"; "CSE / obligations sociales renforcées"].
Definition all_flags_rse :=
  ["Enjeux environnementaux critiques";
   "Suivi empreinte & conformité environnementale"].
Definition all_flags_digital :=
  ["Faible digitalisation (risque d'erreurs et coûts)";
   "Digitalisation partielle à structurer"].
Definition all_flags_transmission :=
  ["Horizon retraite à anticiper"; "Projet de succession / transmission"].
Definition all_flags_fiscal :=
  ["Flux internationaux (prix de transfert/TVA)";
   "Groupe / structuration patrimoniale";
   "Risque TVA B2C (règles spécifiques)"].

Definition rule_flags : list string :=
  all_flags_sector ++ all_flags_hr ++ all_flags_rse ++ all_flags_digital
  ++ all_flags_transmission ++ all_flags_fiscal.

(** The label the catalogue gives to a code. *)
Definition catalogue_libelle (c : string) : option string :=
  info_libelle <$> PRICING_TABLE !! c.

(** The sum of the catalogue prices of a list of codes of the
    catalogue. *)
Definition price_sum (cs : list string) : Z :=
  foldr (λ c acc, default 0 (catalogue_prix c) + acc) 0 cs.

(** The rationale mapping holds exactly the labels of the offers, with
    one reason each. *)
Definition one_reason_each (st : Locals) : Prop :=
  ∀ k, (k ∈ libelle <$> st_offers st ↔ is_Some (st_rationales st !! k))
       ∧ ∀ rs, st_rationales st !! k = Some rs → length rs = 1%nat.

(** A profile on which every rule of [compute_offers] fires, but the
    ones that another rule excludes. *)
Definition profile_max : ClientProfile :=
  mkProfile "Client MAX" "BTP" 25 true "Mixte" true "Importante" true
    "Important" ["International"; "Holding"] true true
    "Informatique rudimentaire" "< 2 ans" true true.

(** A profile on which only the two unguarded rules fire. *)
Definition profile_min : ClientProfile :=
  mkProfile "Client MIN" "Services" 0 false "Aucun salarié" false
    "Faible/Non" false "Modeste" [] false false "Informatique avancée"
    "Loin" false false.

(** The form as the script first renders it: every widget at its default
    value. *)
Definition form_default : FormInput :=
  mkForm "Client DEMO" "Services" 0 false "Aucun salarié" false "Faible/Non"
    false "Modeste" [] false false "Informatique rudimentaire" "Loin" false
    false.

(** A form on which the only fiscal particularity selected is
    "TVA particuliers". *)
Definition form_tva_only : FormInput :=
  mkForm "Client TVA" "Commerce" 3 false "CDI" false "Faible/Non" false
    "Modeste" ["TVA particuliers"] false false "Informatique avancée" "Loin"
    false false.

(* ================================================================== *)
(** ** Display of the amounts *)
(* ================================================================== *)

(** [str(n)] on an [int]. *)
Definition str_int (n : Z) : string := NilZero.string_of_int (Z.to_int n).

(** [s.replace(a, b)] for patterns of one character. *)
Definition replace_char (a b : ascii) (s : string) : string :=
  string_of_list_ascii
    (map (λ c, if Ascii.eqb c a then b else c) (list_ascii_of_string s)).

(** The thousands separator of the format specification [","]: a comma
    before every group of three digits, counted from the right. *)
Fixpoint group3 (l : list ascii) : list ascii :=
  match l with
  | [] => []
  | c :: l' =>
      c :: (if (0 <? length l')%nat && (length l' mod 3 =? 0)%nat
            then ","%char :: group3 l' else group3 l')
  end.

(** [f"{n:,.0f}"] on an [int] that converts to a [float] without
    rounding (at most 2^53 in absolute value): the sign, then the decimal
    digits grouped by three. *)
Definition format_thousands (n : Z) : string :=
  match Z.to_int n with
  | Pos d =>
      string_of_list_ascii
        (group3 (list_ascii_of_string (NilZero.string_of_uint d)))
  | Neg d =>
      String "-"
        (string_of_list_ascii
           (group3 (list_ascii_of_string (NilZero.string_of_uint d))))
  end.

(** [euro(n)], for the [int] amounts that the script passes to it (the
    prices of the catalogue and [total_ht]). *)
Definition euro (n : Z) : string :=
  replace_char "." "," (replace_char "," " " (format_thousands n +:+ " €")).

(** The amount without its spaces. *)
Definition remove_spaces (s : string) : string :=
  string_of_list_ascii
    (List.filter (λ c, negb (Ascii.eqb c " ")) (list_ascii_of_string s)).

(** The characters of a decimal representation. *)
Definition digit (c : ascii) : Prop :=
  c ∈ ["0"; "1"; "2"; "3"; "4"; "5"; "6"; "7"; "8"; "9"]%char.

(** The sign that [euro] prints before the digits. *)
Definition sign_of (n : Z) : string := if n <? 0 then "-" else "".

(** The digits grouped by three with spaces between the groups. *)
Definition space_groups (l : list ascii) : list ascii :=
  map (λ c, if Ascii.eqb c "," then " "%char else c) (group3 l).

(** The bound below which an [int] converts to a [float] exactly. *)
Definition float_exact (n : Z) : Prop := Z.abs n ≤ 2 ^ 53.

(* ================================================================== *)
(** ** Export of the proposal *)
(* ================================================================== *)

(** The values of the fields of a profile, as [asdict] returns them. *)
Inductive PyVal :=
  | VStr (s : string)
  | VInt (n : Z)
  | VBool (b : bool)
  | VList (l : list string).

(** [asdict(profile)]: the fields in the order of the dataclass. *)
Definition asdict (p : ClientProfile) : list (string * PyVal) :=
  [ ("nom_client", VStr (nom_client p));
    ("secteur", VStr (secteur p));
    ("nb_salaries", VInt (nb_salaries p));
    ("presence_cadres", VBool (presence_cadres p));
    ("type_contrats", VStr (type_contrats p));
    ("rse_sensible", VBool (rse_sensible p));
    ("rse_pollution", VStr (rse_pollution p));
    ("coaching_client", VBool (coaching_client p));
    ("patrimoine_dirigeant", VStr (patrimoine_dirigeant p));
    ("particulier_fiscal", VList (particulier_fiscal p));
    ("caisse", VBool (caisse p));
    ("patrimoniale", VBool (patrimoniale p));
    ("digitalisation", VStr (digitalisation p));
    ("proche_retraite", VStr (proche_retraite p));
    ("succession_envisagee", VBool (succession_envisagee p));
    ("clients_particuliers_avec_tva", VBool (clients_particuliers_avec_tva p)) ].

Definition key_map : gmap string string :=
  list_to_map [
    ("nom_client", "Client");
    ("secteur", "Secteur");
    ("nb_salaries", "Nombre de salariés");
    ("presence_cadres", "Présence de cadres");
    ("type_contrats", "Type de contrats");
    ("rse_sensible", "Sensibilité RSE");
    ("rse_pollution", "Niveau d'impact environnemental");
    ("coaching_client", "Souhaite coaching dirigeant");
    ("patrimoine_dirigeant", "Patrimoine du dirigeant");
    ("particulier_fiscal", "Particularités fiscales");
    ("caisse", "Suivi de trésorerie");
    ("patrimoniale", "Besoin patrimonial");
    ("digitalisation", "Niveau de digitalisation");
    ("proche_retraite", "Horizon retraite");
    ("succession_envisagee", "Projet de succession");
    ("clients_particuliers_avec_tva", "Clients particuliers avec TVA")
  ].

(** The text shown for the value of a field: a list is joined with
    commas, a boolean is "Oui" or "Non", anything else goes through
    [str]. *)
Definition show_value (v : PyVal) : string :=
  match v with
  | VList l => join ", " l
  | VBool true => "Oui"
  | VBool false => "Non"
  | VStr s => s
  | VInt n => str_int n
  end.

(** One iteration of the loop [for k, v in pf.items()]. *)
Definition field_lines (kv : string * PyVal) : list string :=
  if String.eqb kv.1 "nom_client" then []
  else
    let label := default kv.1 (key_map !! kv.1) in
    ["- **" +:+ label +:+ "** : " +:+ show_value kv.2].

(** One iteration of the loop [for o in offers_info["offers"]]. *)
Definition offer_lines (rats : gmap string (list string)) (o : Offer)
  : list string :=
  let lib := libelle o in
  let prix := euro (prix o) in
  let reasons := default [] (rats !! lib) in
  ("- **" +:+ lib +:+ "** — " +:+ prix +:+ " / mois ou forfait")
  :: map (λ r, "  - Justification : " +:+ r) reasons.

Definition steps : list string :=
  [ "Atelier de cadrage (1h) pour valider les priorités et le périmètre";
    "Plan d'onboarding (accès bancaires, facturation, paie, outils)";
    "Mise en place des rituels (comité de pilotage mensuel / trimestriel)";
    "Premiers livrables : budget, prévisionnel de trésorerie, diagnostic RSE" ].

(** The list [lines] of [export_proposal] when the loops are over; [now]
    is the date as [strftime] formats it.  The test
    [if segment_info["risk_flags"]] around the loop on the flags changes
    nothing: the loop on an empty list adds no line. *)
Definition export_lines (now : string) (p : ClientProfile)
    (segment_info : SegmentResult) (offers_info : OfferResult)
  : list string :=
  [ "# Proposition d'accompagnement — " +:+ nom_client p;
    "";
    "_Date : " +:+ now +:+ "_";
    "";
    "## 1) Profil synthétique";
    "" ]
  ++ flat_map field_lines (asdict p)
  ++ [ "";
       "## 2) Segmentation & risques";
       "";
       "- **Segment** : " +:+ segment segment_info;
       "- **Intensité conformité** : " +:+ compliance_intensity segment_info ]
  ++ map (λ rf, "  - ⚠️ " +:+ rf) (risk_flags segment_info)
  ++ [ ""; "## 3) Offre recommandée"; "" ]
  ++ flat_map (offer_lines (rationales offers_info)) (offers offers_info)
  ++ [ "";
       "**Total indicatif** (HT) : " +:+ euro (total_ht offers_info);
       "";
       "## 4) Prochaines étapes" ]
  ++ map (λ s, "- " +:+ s) steps.

(** The path that [export_proposal] opens for writing. *)
Definition export_filename (p : ClientProfile) : string :=
  "/mnt/data/Proposition_" +:+ replace_char " " "_" (nom_client p) +:+ ".md".

(* ================================================================== *)
(** ** The globals of the script and the calls of the engines *)
(* ================================================================== *)









(* ================================================================== *)
(** ** Sanity checks of the embedding on concrete profiles *)
(* ================================================================== *)

Example split_two : split " | " "PME ≥ 11 | BTP" = ["PME ≥ 11"; "BTP"].
Proof. reflexivity. Qed.

Example split_one : split " | " "TPE < 11" = ["TPE < 11"].
Proof. reflexivity. Qed.

Example euro_total_max : euro 10230 = "10 230 €".
Proof. reflexivity. Qed.

Example euro_price : euro 180 = "180 €".
Proof. reflexivity. Qed.

Example euro_million : euro 1234567 = "1 234 567 €".
Proof. reflexivity. Qed.

Example export_filename_demo :
  export_filename (scenario_A "Client DEMO" "Aucun salarié")
  = "/mnt/data/Proposition_Client_DEMO.md".
Proof. reflexivity. Qed.

Example fired_scenario_A :
  (fired (scenario_A "Client DEMO" "Aucun salarié")).*1
  = ["gestion_budget"; "revue_qualite"; "digital_full"].
Proof. reflexivity. Qed.

(* ================================================================== *)
(** ** Blocks and the calls they make *)
(* ================================================================== *)

Section BlockFacts.
Context {St : Type} (add : string → string → Block St).

Lemma seq_pass_r (b : Block St) st : seq b pass st = b st.
Proof. unfold seq, pass. by destruct (b st). Qed.

Lemma add_all_app l1 l2 st :
  add_all add (l1 ++ l2) st = add_all add l1 st ≫= add_all add l2.
Proof.
  revert st. induction l1 as [|cr l1 IH]; intros st; [done|].
  cbn. unfold seq. destruct (add cr.1 cr.2 st) as [st1|]; cbn; [|done].
  apply IH.
Qed.

Lemma add_all_one c r st : add_all add [(c, r)] st = add c r st.
Proof. cbn. apply seq_pass_r. Qed.

Lemma makes_seq b1 b2 l1 l2 :
  makes add b1 l1 → makes add b2 l2 → makes add (seq b1 b2) (l1 ++ l2).
Proof.
  intros H1 H2 st. rewrite add_all_app. unfold seq. rewrite H1.
  destruct (add_all add l1 st); cbn; [apply H2 | done].
Qed.

End BlockFacts.

(** Running a block of rules with any [add_offer] is making the calls
    that the recorder logs. *)
Ltac block_calls :=
  intros st;
  repeat match goal with
         | |- context [if ?b then _ else _] => destruct b
         end;
  cbn; unfold seq, pass;
  repeat match goal with
         | |- context [?add ?c ?r ?s ≫= _] =>
             destruct (add c r s); cbn
         | |- context [match ?add ?c ?r ?s with _ => _ end] =>
             destruct (add c r s); cbn
         end;
  reflexivity.

Section RuleCalls.
Context {St : Type} (add : string → string → Block St).

Lemma rules_social_calls p : makes add (rules_social add p) (fired_social p).
Proof. unfold fired_social, calls, rules_social. block_calls. Qed.

Lemma rules_rse_calls p : makes add (rules_rse add p) (fired_rse p).
Proof. unfold fired_rse, calls, rules_rse. block_calls. Qed.

Lemma rules_coaching_calls p :
  makes add (rules_coaching add p) (fired_coaching p).
Proof. unfold fired_coaching, calls, rules_coaching. block_calls. Qed.

Lemma rules_patrimonial_calls p :
  makes add (rules_patrimonial add p) (fired_patrimonial p).
Proof. unfold fired_patrimonial, calls, rules_patrimonial. block_calls. Qed.

Lemma rules_fiscal_calls p : makes add (rules_fiscal add p) (fired_fiscal p).
Proof. unfold fired_fiscal, calls, rules_fiscal. block_calls. Qed.

Lemma rules_gestion_calls p :
  makes add (rules_gestion add p) (fired_gestion p).
Proof. unfold fired_gestion, calls, rules_gestion. block_calls. Qed.

Lemma rules_digital_calls p :
  makes add (rules_digital add p) (fired_digital p).
Proof. unfold fired_digital, calls, rules_digital. block_calls. Qed.

Lemma rules_sector_calls p : makes add (rules_sector add p) (fired_sector p).
Proof. unfold fired_sector, calls, rules_sector. block_calls. Qed.

Lemma rules_transmission_calls p :
  makes add (rules_transmission add p) (fired_transmission p).
Proof. unfold fired_transmission, calls, rules_transmission. block_calls. Qed.

Lemma compute_rules_calls p : makes add (compute_rules add p) (fired p).
Proof.
  unfold compute_rules, fired.
  repeat apply makes_seq;
    auto using rules_social_calls, rules_rse_calls, rules_coaching_calls,
      rules_patrimonial_calls, rules_fiscal_calls, rules_gestion_calls,
      rules_digital_calls, rules_sector_calls, rules_transmission_calls.
Qed.

End RuleCalls.

(* ================================================================== *)
(** ** The codes of the fired rules *)
(* ================================================================== *)

Ltac guards :=
  repeat match goal with
         | |- context [if ?b then _ else _] => destruct b eqn:?
         end;
  cbn.

Ltac sub_codes :=
  guards; repeat first [ apply sublist_nil_l | apply sublist_skip
                       | apply sublist_cons ].

Lemma fired_social_sub p : (fired_social p).*1 `sublist_of` codes_social.
Proof. unfold fired_social, calls, rules_social, codes_social. sub_codes. Qed.

Lemma fired_rse_sub p : (fired_rse p).*1 `sublist_of` codes_rse.
Proof. unfold fired_rse, calls, rules_rse, codes_rse. sub_codes. Qed.

Lemma fired_coaching_sub p :
  (fired_coaching p).*1 `sublist_of` codes_coaching.
Proof. unfold fired_coaching, calls, rules_coaching, codes_coaching. sub_codes. Qed.

Lemma fired_patrimonial_sub p :
  (fired_patrimonial p).*1 `sublist_of` codes_patrimonial.
Proof.
  unfold fired_patrimonial, calls, rules_patrimonial, codes_patrimonial.
  sub_codes.
Qed.

Lemma fired_fiscal_sub p : (fired_fiscal p).*1 `sublist_of` codes_fiscal.
Proof. unfold fired_fiscal, calls, rules_fiscal, codes_fiscal. sub_codes. Qed.

Lemma fired_gestion_sub p : (fired_gestion p).*1 `sublist_of` codes_gestion.
Proof. unfold fired_gestion, calls, rules_gestion, codes_gestion. sub_codes. Qed.

Lemma fired_digital_sub p : (fired_digital p).*1 `sublist_of` codes_digital.
Proof. unfold fired_digital, calls, rules_digital, codes_digital. sub_codes. Qed.

Lemma fired_sector_sub p : (fired_sector p).*1 `sublist_of` codes_sector.
Proof. unfold fired_sector, calls, rules_sector, codes_sector. sub_codes. Qed.

Lemma fired_transmission_sub p :
  (fired_transmission p).*1 `sublist_of` codes_transmission.
Proof.
  unfold fired_transmission, calls, rules_transmission, codes_transmission.
  sub_codes.
Qed.

Lemma fired_codes p :
  (fired p).*1 =
  (fired_social p).*1 ++ (fired_rse p).*1 ++ (fired_coaching p).*1
  ++ (fired_patrimonial p).*1 ++ (fired_fiscal p).*1 ++ (fired_gestion p).*1
  ++ (fired_digital p).*1 ++ (fired_sector p).*1 ++ (fired_transmission p).*1.
Proof. unfold fired. by rewrite !fmap_app. Qed.

Lemma fired_sub p : (fired p).*1 `sublist_of` rule_codes.
Proof.
  rewrite fired_codes. unfold rule_codes.
  repeat apply sublist_app;
    auto using fired_social_sub, fired_rse_sub, fired_coaching_sub,
      fired_patrimonial_sub, fired_fiscal_sub, fired_gestion_sub,
      fired_digital_sub, fired_sector_sub, fired_transmission_sub.
Qed.

Lemma rule_codes_NoDup : NoDup rule_codes.
Proof. apply (bool_decide_unpack _). by vm_compute. Qed.

(** Every code that a rule passes to [add_offer] is a key of the
    catalogue. *)
Lemma rule_codes_in_catalogue :
  Forall (λ c, is_Some (PRICING_TABLE !! c)) rule_codes.
Proof. apply (bool_decide_unpack _). by vm_compute. Qed.

Lemma fired_NoDup p : NoDup (fired p).*1.
Proof. eapply sublist_NoDup; [apply rule_codes_NoDup | apply fired_sub]. Qed.

Lemma fired_in_catalogue p :
  Forall (λ c, is_Some (PRICING_TABLE !! c)) (fired p).*1.
Proof.
  apply Forall_forall. intros c Hc.
  apply (proj1 (Forall_forall _ _) rule_codes_in_catalogue).
  eapply elem_of_sublist; [exact Hc | apply fired_sub].
Qed.

(* ================================================================== *)
(** ** The closure [add_offer] and the rationale dictionary *)
(* ================================================================== *)

Lemma safe_add_lookup m k v :
  safe_add m k v !! k = Some (default [] (m !! k) ++ [v]).
Proof.
  unfold safe_add. destruct (m !! k) as [l|] eqn:Hk; cbn.
  - by rewrite lookup_alter_eq, Hk.
  - by rewrite lookup_alter_eq, lookup_insert_eq.
Qed.

Lemma safe_add_lookup_ne m k v k' :
  k ≠ k' → safe_add m k v !! k' = m !! k'.
Proof.
  intros Hne. unfold safe_add. rewrite lookup_alter_ne by done.
  destruct (m !! k); [done|]. by rewrite lookup_insert_ne.
Qed.

Lemma safe_add_justified m k v o :
  justified m o ∨ libelle o = k → justified (safe_add m k v) o.
Proof.
  unfold justified. intros H.
  destruct (decide (k = libelle o)) as [->|Hne].
  - rewrite safe_add_lookup. eexists; split; [done|].
    by destruct (default [] (m !! libelle o)).
  - rewrite safe_add_lookup_ne by done. by destruct H.
Qed.

Lemma add_offer_run c r st info :
  PRICING_TABLE !! c = Some info →
  add_offer c r st =
  Some {| st_offers :=
            st_offers st ++ [mkOffer c (info_libelle info) (info_prix info)];
          st_rationales :=
            safe_add (st_rationales st) (info_libelle info) r |}.
Proof. intros H. unfold add_offer. by rewrite H. Qed.

(** What the locals look like after a sequence of calls of [add_offer]
    whose codes are all keys of the catalogue: the calls return, the codes
    are appended in order, every offer is an entry of the catalogue and has
    a reason recorded under its label. *)
Lemma add_all_run l st :
  Forall (λ c, is_Some (PRICING_TABLE !! c)) l.*1 →
  ∃ st', add_all add_offer l st = Some st'
    ∧ code <$> st_offers st' = (code <$> st_offers st) ++ l.*1
    ∧ (Forall priced (st_offers st) → Forall priced (st_offers st'))
    ∧ (Forall (justified (st_rationales st)) (st_offers st) →
       Forall (justified (st_rationales st')) (st_offers st')).
Proof.
  revert st. induction l as [|[c r] l IH]; intros st Hl.
  - exists st. cbn. by rewrite app_nil_r.
  - rewrite fmap_cons in Hl. apply Forall_cons in Hl as [[[lib px] Hc] Hl].
    cbn [add_all fst snd] in *. unfold seq.
    rewrite (add_offer_run _ _ _ _ Hc). cbn [mbind option_bind].
    cbn [info_libelle info_prix].
    set (st1 := mkLocals _ _).
    destruct (IH st1 Hl) as (st' & Hrun & Hcodes & Hpr & Hju).
    exists st'. subst st1. cbn [st_offers st_rationales] in *.
    split; [done|]. split; [|split].
    + rewrite Hcodes, fmap_app. cbn. by rewrite <- app_assoc.
    + intros H. apply Hpr. apply Forall_app. split; [done|].
      by apply Forall_singleton.
    + intros H. apply Hju. apply Forall_app. split.
      * eapply Forall_impl; [exact H|]. intros o Ho.
        apply safe_add_justified. by left.
      * apply Forall_singleton. apply safe_add_justified. by right.
Qed.

(** The rules return for every profile, and the raw list carries the
    codes of the fired rules. *)
Lemma raw_locals_run p :
  ∃ st, raw_locals p = Some st
    ∧ code <$> st_offers st = (fired p).*1
    ∧ Forall priced (st_offers st)
    ∧ Forall (justified (st_rationales st)) (st_offers st).
Proof.
  unfold raw_locals. rewrite (compute_rules_calls add_offer p).
  destruct (add_all_run (fired p) (mkLocals [] ∅) (fired_in_catalogue p))
    as (st & Hrun & Hcodes & Hpr & Hju).
  exists st. cbn in *. split; [done|]. split; [done|].
  split; [apply Hpr | apply Hju]; constructor.
Qed.

(* ================================================================== *)
(** ** The deduplication loop and the sum *)
(* ================================================================== *)

Lemma foldl_dedup_step seen unique os :
  (foldl dedup_step (seen, unique) os).2 = unique ++ keep_first seen os.
Proof.
  revert seen unique. induction os as [|o os IH]; intros seen unique; cbn.
  - by rewrite app_nil_r.
  - unfold dedup_step at 2. cbn. destruct (decide (code o ∈ seen)).
    + apply IH.
    + rewrite IH. by rewrite <- app_assoc.
Qed.

Lemma deduplicate_keep_first os : deduplicate os = keep_first ∅ os.
Proof. unfold deduplicate. by rewrite foldl_dedup_step. Qed.

Lemma keep_first_sublist seen os : keep_first seen os `sublist_of` os.
Proof.
  revert seen. induction os as [|o os IH]; intros seen; cbn; [done|].
  destruct (decide (code o ∈ seen)).
  - by apply sublist_cons.
  - by apply sublist_skip.
Qed.

Lemma keep_first_unseen seen os o :
  o ∈ keep_first seen os → code o ∉ seen.
Proof.
  revert seen. induction os as [|o' os IH]; intros seen; cbn.
  - by intros ?%elem_of_nil.
  - destruct (decide (code o' ∈ seen)); [apply IH|].
    intros [->|Hin]%elem_of_cons; [done|].
    apply IH in Hin. set_solver.
Qed.

Lemma keep_first_NoDup seen os : NoDup (code <$> keep_first seen os).
Proof.
  revert seen. induction os as [|o os IH]; intros seen; cbn.
  - constructor.
  - destruct (decide (code o ∈ seen)); [apply IH|].
    cbn. constructor; [|apply IH].
    intros (o' & Heq & Hin)%list_elem_of_fmap.
    apply keep_first_unseen in Hin. set_solver.
Qed.

(** No code is lost: a code of the list is already seen or is kept. *)
Lemma keep_first_covers seen os o :
  o ∈ os → code o ∈ seen ∨ code o ∈ code <$> keep_first seen os.
Proof.
  revert seen. induction os as [|o' os IH]; intros seen; cbn.
  - by intros ?%elem_of_nil.
  - intros Hin. destruct (decide (code o' ∈ seen)) as [Hs|Hs].
    + apply elem_of_cons in Hin as [->|Hin]; [by left | by apply IH].
    + cbn. apply elem_of_cons in Hin as [->|Hin]; [right; by left|].
      destruct (IH (seen ∪ {[code o']}) Hin) as [H|H].
      * apply elem_of_union in H as [H|H]; [by left|].
        apply elem_of_singleton in H. right. rewrite H. by left.
      * right. by right.
Qed.

(** The first occurrence wins: a kept offer sits in the list before any
    other offer with its code. *)
Lemma keep_first_first seen os o :
  o ∈ keep_first seen os →
  ∃ i, os !! i = Some o
    ∧ ∀ j o', (j < i)%nat → os !! j = Some o' → code o' ≠ code o.
Proof.
  revert seen. induction os as [|o0 os IH]; intros seen; cbn.
  - by intros ?%elem_of_nil.
  - destruct (decide (code o0 ∈ seen)) as [Hs|Hs].
    + intros Hin. pose proof (keep_first_unseen _ _ _ Hin) as Hun.
      destruct (IH _ Hin) as (i & Hi & Hbefore).
      exists (S i). split; [done|]. intros [|j] o' Hj Ho'; cbn in Ho'.
      * injection Ho' as <-. congruence.
      * apply (Hbefore j); [lia | done].
    + intros [->|Hin]%elem_of_cons.
      * exists O. split; [done|]. intros; lia.
      * pose proof (keep_first_unseen _ _ _ Hin) as Hun.
        destruct (IH _ Hin) as (i & Hi & Hbefore).
        exists (S i). split; [done|]. intros [|j] o' Hj Ho'; cbn in Ho'.
        -- injection Ho' as <-. set_solver.
        -- apply (Hbefore j); [lia | done].
Qed.

(** On a list whose codes are pairwise distinct and not yet seen, the
    loop keeps everything. *)
Lemma keep_first_id seen os :
  NoDup (code <$> os) → (∀ o, o ∈ os → code o ∉ seen) →
  keep_first seen os = os.
Proof.
  revert seen. induction os as [|o os IH]; intros seen Hnd Hun; cbn; [done|].
  cbn in Hnd. apply NoDup_cons in Hnd as [Ho Hnd].
  destruct (decide (code o ∈ seen)) as [Hs|Hs].
  - exfalso. apply (Hun o); [by left | done].
  - f_equal. apply IH; [done|]. intros o' Hin.
    intros [H|H%elem_of_singleton]%elem_of_union.
    + apply (Hun o'); [by right | done].
    + apply Ho. rewrite <- H. apply list_elem_of_fmap. eauto.
Qed.

Lemma sum_prix_foldr l : sum_prix l = foldr Z.add 0 (prix <$> l).
Proof.
  unfold sum_prix.
  assert (∀ a, foldl (λ acc o, acc + prix o) a l
               = a + foldr Z.add 0 (prix <$> l)) as H.
  { induction l as [|o l IH]; intros a; cbn; [lia|]. rewrite IH. lia. }
  apply H.
Qed.

(** The sum over offers that are entries of the catalogue is the sum of
    the catalogue prices of their codes. *)
Lemma catalogue_total_priced l :
  Forall priced l → catalogue_total (code <$> l) = Some (sum_prix l).
Proof.
  intros Hl. unfold catalogue_total.
  assert (mapM catalogue_prix (code <$> l) = Some (prix <$> l)) as ->.
  { apply mapM_Some_2. apply Forall2_fmap. apply Forall_Forall2_diag.
    eapply Forall_impl; [exact Hl|]. intros o Ho.
    unfold catalogue_prix. by rewrite Ho. }
  cbn. by rewrite sum_prix_foldr.
Qed.

(* ================================================================== *)
(** ** What [compute_offers] returns *)
(* ================================================================== *)

(** The raw list of every profile has pairwise distinct codes. *)
Lemma raw_codes_NoDup p st :
  raw_locals p = Some st → NoDup (code <$> st_offers st).
Proof.
  destruct (raw_locals_run p) as (st' & Hrun & Hcodes & _).
  rewrite Hrun. intros [= <-]. rewrite Hcodes. apply fired_NoDup.
Qed.

Lemma deduplicate_raw p st :
  raw_locals p = Some st → deduplicate (st_offers st) = st_offers st.
Proof.
  intros Hst. rewrite deduplicate_keep_first. apply keep_first_id.
  - by eapply raw_codes_NoDup.
  - intros o _. apply not_elem_of_empty.
Qed.

(** [compute_offers] returns for every profile; the codes of the result
    are the codes of the fired rules, in order. *)
Lemma compute_offers_run p :
  ∃ r, compute_offers p = Some r
    ∧ raw_locals p = Some (mkLocals (offers r) (rationales r))
    ∧ code <$> offers r = (fired p).*1
    ∧ Forall priced (offers r)
    ∧ Forall (justified (rationales r)) (offers r)
    ∧ total_ht r = sum_prix (offers r).
Proof.
  destruct (raw_locals_run p) as (st & Hrun & Hcodes & Hpr & Hju).
  unfold compute_offers. rewrite Hrun. cbn.
  rewrite (deduplicate_raw p st Hrun).
  eexists. split; [reflexivity|]. cbn. by destruct st.
Qed.

Ltac not_listed H :=
  exfalso; revert H; apply (bool_decide_eq_false_1 _); vm_compute; reflexivity.

Ltac other_block H sub :=
  apply (λ H, elem_of_sublist _ _ _ H (sub _)) in H; not_listed H.

Lemma fired_code_cases p c :
  c ∈ (fired p).*1 →
  c ∈ (fired_social p).*1 ∨ c ∈ (fired_rse p).*1
  ∨ c ∈ (fired_coaching p).*1 ∨ c ∈ (fired_patrimonial p).*1
  ∨ c ∈ (fired_fiscal p).*1 ∨ c ∈ (fired_gestion p).*1
  ∨ c ∈ (fired_digital p).*1 ∨ c ∈ (fired_sector p).*1
  ∨ c ∈ (fired_transmission p).*1.
Proof. rewrite fired_codes, !elem_of_app. tauto. Qed.

(** Find the block that emitted a given code: the other blocks cannot. *)
Ltac find_block H :=
  apply fired_code_cases in H
    as [H|[H|[H|[H|[H|[H|[H|[H|H]]]]]]]];
  [ try (other_block H fired_social_sub)
  | try (other_block H fired_rse_sub)
  | try (other_block H fired_coaching_sub)
  | try (other_block H fired_patrimonial_sub)
  | try (other_block H fired_fiscal_sub)
  | try (other_block H fired_gestion_sub)
  | try (other_block H fired_digital_sub)
  | try (other_block H fired_sector_sub)
  | try (other_block H fired_transmission_sub) ].

Lemma social_exclusive p :
  ¬ ("social_basique" ∈ (fired p).*1 ∧ "social_plus" ∈ (fired p).*1).
Proof.
  intros [H1 H2]. find_block H1. find_block H2.
  revert H1 H2. unfold fired_social, calls, rules_social.
  guards; intros H1 H2; first [not_listed H1 | not_listed H2].
Qed.

Lemma coaching_exclusive p :
  ¬ ("coaching_light" ∈ (fired p).*1 ∧ "coaching_pro" ∈ (fired p).*1).
Proof.
  intros [H1 H2]. find_block H1. find_block H2.
  revert H1 H2. unfold fired_coaching, calls, rules_coaching.
  guards; intros H1 H2; try first [not_listed H1 | not_listed H2].
  repeat match goal with
         | H : _ && _ = true |- _ => apply andb_true_iff in H as [_ H]
         | H : String.eqb _ _ = true |- _ => apply String.eqb_eq in H
         end.
  congruence.
Qed.

Lemma digital_exclusive p :
  ¬ ("digital_start" ∈ (fired p).*1 ∧ "digital_full" ∈ (fired p).*1).
Proof.
  intros [H1 H2]. find_block H1. find_block H2.
  revert H1 H2. unfold fired_digital, calls, rules_digital.
  guards; intros H1 H2; first [not_listed H1 | not_listed H2].
Qed.

Lemma unconditional_fired p :
  "gestion_budget" ∈ (fired p).*1 ∧ "revue_qualite" ∈ (fired p).*1.
Proof.
  assert (∀ c, c ∈ (fired_gestion p).*1 → c ∈ (fired p).*1) as Hg.
  { intros c Hc. rewrite fired_codes, !elem_of_app. tauto. }
  split; apply Hg; unfold fired_gestion, calls, rules_gestion; guards;
    apply (bool_decide_unpack _); vm_compute; exact I.
Qed.

(* ================================================================== *)
(** ** The claims on the offer engine *)
(* ================================================================== *)

(** C1. For every profile [compute_offers] returns a result whose offer
    list holds each code at most once; it is the raw list of the rules
    with, for each code, only the first occurrence kept (a sublist of the
    raw list that loses no code, and in which each offer precedes in the
    raw list every other offer with its code); and [total_ht] is the sum
    of the catalogue prices of the codes of that list. *)
Theorem C1_offers_deduplicated_and_total (p : ClientProfile) :
  ∃ st r,
    raw_locals p = Some st ∧ compute_offers p = Some r
    ∧ NoDup (code <$> offers r)
    ∧ offers r `sublist_of` st_offers st
    ∧ (∀ o, o ∈ st_offers st → code o ∈ code <$> offers r)
    ∧ (∀ o, o ∈ offers r →
         ∃ i, st_offers st !! i = Some o
           ∧ ∀ j o', (j < i)%nat → st_offers st !! j = Some o' →
                     code o' ≠ code o)
    ∧ catalogue_total (code <$> offers r) = Some (total_ht r).
Proof.
  destruct (raw_locals_run p) as (st & Hrun & _ & Hpr & _).
  exists st. unfold compute_offers. rewrite Hrun. cbn.
  eexists. split; [done|]. split; [done|]. cbn.
  rewrite deduplicate_keep_first. repeat split.
  - apply keep_first_NoDup.
  - apply keep_first_sublist.
  - intros o Ho. destruct (keep_first_covers ∅ _ _ Ho) as [H|H]; [|done].
    by apply not_elem_of_empty in H.
  - apply keep_first_first.
  - apply catalogue_total_priced. apply Forall_forall. intros o Ho.
    apply (proj1 (Forall_forall _ _) Hpr).
    eapply elem_of_sublist; [exact Ho | apply keep_first_sublist].
Qed.

(** C4. For every profile the offer list returned by [compute_offers]
    contains the codes "gestion_budget" and "revue_qualite". *)
Theorem C4_unconditional_offers (p : ClientProfile) :
  ∃ r, compute_offers p = Some r
    ∧ "gestion_budget" ∈ code <$> offers r
    ∧ "revue_qualite" ∈ code <$> offers r.
Proof.
  destruct (compute_offers_run p) as (r & Hr & _ & Hcodes & _).
  exists r. split; [done|]. rewrite Hcodes. apply unconditional_fired.
Qed.

(** C5. For every profile the offer list returned by [compute_offers]
    never contains both "social_basique" and "social_plus", nor both
    "coaching_light" and "coaching_pro", nor both "digital_start" and
    "digital_full". *)
Theorem C5_mutually_exclusive_offers (p : ClientProfile) :
  ∃ r, compute_offers p = Some r
    ∧ ¬ ("social_basique" ∈ code <$> offers r
         ∧ "social_plus" ∈ code <$> offers r)
    ∧ ¬ ("coaching_light" ∈ code <$> offers r
         ∧ "coaching_pro" ∈ code <$> offers r)
    ∧ ¬ ("digital_start" ∈ code <$> offers r
         ∧ "digital_full" ∈ code <$> offers r).
Proof.
  destruct (compute_offers_run p) as (r & Hr & _ & Hcodes & _).
  exists r. split; [done|]. rewrite Hcodes.
  auto using social_exclusive, coaching_exclusive, digital_exclusive.
Qed.

(** C7. For every profile, every offer of the list returned by
    [compute_offers] has at least one reason recorded in the returned
    rationale mapping under its label. *)
Theorem C7_rationale_complete (p : ClientProfile) :
  ∃ r, compute_offers p = Some r
    ∧ ∀ o, o ∈ offers r →
        ∃ reasons, rationales r !! libelle o = Some reasons
                   ∧ (0 < length reasons)%nat.
Proof.
  destruct (compute_offers_run p) as (r & Hr & _ & _ & _ & Hju & _).
  exists r. split; [done|]. intros o Ho.
  destruct (proj1 (Forall_forall _ _) Hju o Ho) as (rs & Hrs & Hne).
  exists rs. split; [done|]. destruct rs; [done | cbn; lia].
Qed.

(** C8. For every profile, every code that [compute_offers] looks up in
    the pricing catalogue is one of its keys, so no lookup fails and
    [compute_offers] returns a result. *)
Theorem C8_no_lookup_failure (p : ClientProfile) :
  makes add_offer (compute_rules add_offer p) (fired p)
  ∧ Forall (λ c, is_Some (PRICING_TABLE !! c)) (fired p).*1
  ∧ ∃ r, compute_offers p = Some r.
Proof.
  split; [apply compute_rules_calls|]. split; [apply fired_in_catalogue|].
  destruct (compute_offers_run p) as (r & Hr & _). eauto.
Qed.

(** C10. For every profile the raw offer list built by the rules has
    pairwise distinct codes, the deduplication loop leaves it as it is,
    and [compute_offers] is equal to the variant that returns the raw
    list with the total summed over it. *)
Theorem C10_deduplication_is_identity (p : ClientProfile) :
  (∃ st, raw_locals p = Some st
     ∧ NoDup (code <$> st_offers st)
     ∧ deduplicate (st_offers st) = st_offers st)
  ∧ compute_offers p = compute_offers_raw p.
Proof.
  destruct (raw_locals_run p) as (st & Hrun & _).
  pose proof (raw_codes_NoDup p st Hrun) as Hnd.
  pose proof (deduplicate_raw p st Hrun) as Hid.
  split; [by exists st|].
  unfold compute_offers, compute_offers_raw. rewrite Hrun. cbn.
  by rewrite Hid.
Qed.

(** C6. On the profile of scenario A, whatever the client name and the
    contract type, [infer_segment] returns the segment
    "Solo/Très petite structure" and [compute_offers] returns exactly the
    offers gestion_budget, revue_qualite and digital_full (in that order),
    hence no social, coaching or patrimoine offer, with [total_ht] 940. *)
Theorem C6_scenario_A (nom contrats : string) :
  segment (infer_segment (scenario_A nom contrats))
  = "Solo/Très petite structure"
  ∧ ∃ r, compute_offers (scenario_A nom contrats) = Some r
      ∧ offers r =
          [ mkOffer "gestion_budget" "Tableaux de bord & budget (mensuel)" 280;
            mkOffer "revue_qualite"
              "Revue Qualité comptable & fiscale (trimestrielle)" 240;
            mkOffer "digital_full"
              "Digitalisation - Full (OCR, Hub, flux API)" 420 ]
      ∧ code <$> offers r
          ≡ₚ ["digital_full"; "gestion_budget"; "revue_qualite"]
      ∧ total_ht r = 940.
Proof.
  split; [reflexivity|].
  eexists (mkOfferResult _
    (<["Digitalisation - Full (OCR, Hub, flux API)" :=
         ["Structurer et automatiser les flux (OCR/API/Banque)"]]>
     (<["Revue Qualité comptable & fiscale (trimestrielle)" :=
         ["Sécuriser la qualité comptable et fiscale"]]>
      {["Tableaux de bord & budget (mensuel)" :=
         ["Tableaux de bord et budget mensuel utiles à tout profil PME/TPE"]]}))
    _).
  split; [vm_compute; reflexivity|]. cbn.
  split; [reflexivity|]. split; [|reflexivity].
  by rewrite (Permutation_swap "digital_full"), Permutation_swap,
    (Permutation_swap "revue_qualite").
Qed.

(* ================================================================== *)
(** ** The segmentation engine, block by block *)
(* ================================================================== *)

Lemma str_in_elem_of x l : str_in x l = true ↔ x ∈ l.
Proof.
  unfold str_in. rewrite existsb_exists, list_elem_of_In. split.
  - intros (y & Hy & ->%String.eqb_eq). done.
  - intros H. exists x. split; [done | apply String.eqb_refl].
Qed.

(** Effect of each block on the compliance intensity. *)
Lemma seg_by_size_intensity p s :
  l_intensity (seg_by_size p s) = l_intensity s.
Proof. unfold seg_by_size. by guards. Qed.

Lemma seg_sector_intensity p s :
  l_intensity (seg_sector p s)
  = if String.eqb (secteur p) "BTP" then "Renforcée" else l_intensity s.
Proof. unfold seg_sector. by guards. Qed.

Lemma seg_hr_intensity p s :
  l_intensity (seg_hr p s)
  = if (nb_salaries p >? 0) && (nb_salaries p >=? 11) then "Renforcée"
    else l_intensity s.
Proof.
  unfold seg_hr.
  by destruct (nb_salaries p >? 0), (presence_cadres p),
    (nb_salaries p >=? 11).
Qed.

Lemma seg_rse_intensity p s : l_intensity (seg_rse p s) = l_intensity s.
Proof. unfold seg_rse. by guards. Qed.

Lemma seg_digital_intensity p s :
  l_intensity (seg_digital p s) = l_intensity s.
Proof. unfold seg_digital. by guards. Qed.

Lemma seg_transmission_intensity p s :
  l_intensity (seg_transmission p s) = l_intensity s.
Proof. unfold seg_transmission. by guards. Qed.

Lemma seg_fiscal_intensity p s :
  l_intensity (seg_fiscal p s)
  = if str_in "International" (particulier_fiscal p) then "Renforcée"
    else l_intensity s.
Proof. unfold seg_fiscal. by guards. Qed.

(** Effect of each block on the list of segment tags. *)
Lemma seg_by_size_segment p s :
  l_segment (seg_by_size p s)
  = l_segment s
    ++ [if (nb_salaries p =? 0)
           || String.eqb (type_contrats p) "Aucun salarié"
        then "Solo/Très petite structure"
        else if nb_salaries p <? 11 then "TPE < 11" else "PME ≥ 11"].
Proof. unfold seg_by_size. by guards. Qed.

Lemma seg_sector_segment p s :
  l_segment (seg_sector p s)
  = l_segment s ++ (if String.eqb (secteur p) "BTP" then ["BTP"] else []).
Proof. unfold seg_sector. guards; by rewrite ?app_nil_r. Qed.

Lemma seg_hr_segment p s : l_segment (seg_hr p s) = l_segment s.
Proof. unfold seg_hr. by guards. Qed.

Lemma seg_rse_segment p s : l_segment (seg_rse p s) = l_segment s.
Proof. unfold seg_rse. by guards. Qed.

Lemma seg_digital_segment p s : l_segment (seg_digital p s) = l_segment s.
Proof. unfold seg_digital. by guards. Qed.

Lemma seg_transmission_segment p s :
  l_segment (seg_transmission p s) = l_segment s.
Proof. unfold seg_transmission. by guards. Qed.

Lemma seg_fiscal_segment p s : l_segment (seg_fiscal p s) = l_segment s.
Proof. unfold seg_fiscal. by guards. Qed.

Lemma infer_intensity p :
  compliance_intensity (infer_segment p)
  = if String.eqb (secteur p) "BTP"
       || (nb_salaries p >? 0) && (nb_salaries p >=? 11)
       || str_in "International" (particulier_fiscal p)
    then "Renforcée" else "Standard".
Proof.
  unfold infer_segment, infer_locals. cbn [compliance_intensity].
  rewrite seg_fiscal_intensity, seg_transmission_intensity,
    seg_digital_intensity, seg_rse_intensity, seg_hr_intensity,
    seg_sector_intensity, seg_by_size_intensity.
  cbn [l_intensity].
  by destruct (String.eqb (secteur p) "BTP"),
    ((nb_salaries p >? 0) && (nb_salaries p >=? 11)),
    (str_in "International" (particulier_fiscal p)).
Qed.

Lemma infer_segment_tags p :
  l_segment (infer_locals p)
  = [if (nb_salaries p =? 0)
        || String.eqb (type_contrats p) "Aucun salarié"
     then "Solo/Très petite structure"
     else if nb_salaries p <? 11 then "TPE < 11" else "PME ≥ 11"]
    ++ (if String.eqb (secteur p) "BTP" then ["BTP"] else []).
Proof.
  unfold infer_locals.
  rewrite seg_fiscal_segment, seg_transmission_segment, seg_digital_segment,
    seg_rse_segment, seg_hr_segment, seg_sector_segment, seg_by_size_segment.
  done.
Qed.

Lemma solo_case_guard p :
  (nb_salaries p =? 0) || String.eqb (type_contrats p) "Aucun salarié" = true
  ↔ solo_case p.
Proof.
  unfold solo_case. rewrite orb_true_iff, Z.eqb_eq, String.eqb_eq. done.
Qed.

(** The size tags of the label returned by [infer_segment]. *)
Lemma infer_size_tags p :
  size_tags_of (segment (infer_segment p))
  = [if (nb_salaries p =? 0)
        || String.eqb (type_contrats p) "Aucun salarié"
     then "Solo/Très petite structure"
     else if nb_salaries p <? 11 then "TPE < 11" else "PME ≥ 11"].
Proof.
  unfold infer_segment. cbn [segment]. rewrite infer_segment_tags.
  by destruct ((nb_salaries p =? 0)
               || String.eqb (type_contrats p) "Aucun salarié"),
    (nb_salaries p <? 11), (String.eqb (secteur p) "BTP").
Qed.

(* ================================================================== *)
(** ** The claims on the segmentation engine *)
(* ================================================================== *)

(** C2. For every profile, [infer_segment] returns the compliance
    intensity "Renforcée" if and only if the sector is "BTP", or the
    employee count is at least 11, or "International" is among the fiscal
    particularities; it returns "Standard" in all the other cases, and
    only then. *)
Theorem C2_compliance_intensity (p : ClientProfile) :
  (compliance_intensity (infer_segment p) = "Renforcée"
   ↔ secteur p = "BTP" ∨ 11 ≤ nb_salaries p
     ∨ "International" ∈ particulier_fiscal p)
  ∧ (compliance_intensity (infer_segment p) = "Standard"
     ↔ ¬ (secteur p = "BTP" ∨ 11 ≤ nb_salaries p
          ∨ "International" ∈ particulier_fiscal p)).
Proof.
  rewrite infer_intensity.
  rewrite <- str_in_elem_of, <- (String.eqb_eq (secteur p)).
  assert ((nb_salaries p >? 0) && (nb_salaries p >=? 11) = true
          ↔ 11 ≤ nb_salaries p) as <-.
  { rewrite andb_true_iff, Z.gtb_ltb, Z.geb_leb, Z.ltb_lt, Z.leb_le. lia. }
  destruct (String.eqb (secteur p) "BTP"),
    ((nb_salaries p >? 0) && (nb_salaries p >=? 11)),
    (str_in "International" (particulier_fiscal p)); cbn;
    split; split; intros H; try done; try tauto;
    try (exfalso; apply H; tauto);
    try (by destruct H as [H|[H|H]]).
  by intros [?|[?|?]].
Qed.

(** C3. For every profile the segment label returned by [infer_segment]
    holds exactly one size tag, which depends on the employee count and on
    the contract type only: the Solo tag when the count is zero or the
    contract type is "Aucun salarié"; otherwise the "TPE < 11" tag for 1 to
    10 employees and the "PME ≥ 11" tag for 11 employees or more.  The
    three cases exclude each other. *)
Theorem C3_size_tag (p : ClientProfile) :
  (∃ t, t ∈ size_tags ∧ size_tags_of (segment (infer_segment p)) = [t])
  ∧ (∀ q, nb_salaries q = nb_salaries p →
          type_contrats q = type_contrats p →
          size_tags_of (segment (infer_segment q))
          = size_tags_of (segment (infer_segment p)))
  ∧ (solo_case p →
     size_tags_of (segment (infer_segment p))
     = ["Solo/Très petite structure"])
  ∧ (¬ solo_case p → 1 ≤ nb_salaries p ≤ 10 →
     size_tags_of (segment (infer_segment p)) = ["TPE < 11"])
  ∧ (¬ solo_case p → 11 ≤ nb_salaries p →
     size_tags_of (segment (infer_segment p)) = ["PME ≥ 11"])
  ∧ ¬ (solo_case p ∧ ¬ solo_case p ∧ 1 ≤ nb_salaries p ≤ 10)
  ∧ ¬ (solo_case p ∧ ¬ solo_case p ∧ 11 ≤ nb_salaries p)
  ∧ ¬ (1 ≤ nb_salaries p ≤ 10 ∧ 11 ≤ nb_salaries p).
Proof.
  rewrite infer_size_tags.
  pose proof (solo_case_guard p) as Hsolo.
  set (g := (nb_salaries p =? 0)
            || String.eqb (type_contrats p) "Aucun salarié") in *.
  split; [|split; [|split; [|split; [|split; [|split; [|split]]]]]].
  - eexists. split; [|reflexivity]. unfold size_tags.
    destruct g, (nb_salaries p <? 11); rewrite !elem_of_cons; tauto.
  - intros q Hnb Htc. rewrite infer_size_tags, Hnb, Htc. done.
  - intros H%Hsolo. by rewrite H.
  - intros Hn Hnb. destruct g; [by destruct Hn; apply Hsolo|].
    destruct (Z.ltb_spec (nb_salaries p) 11); [done | lia].
  - intros Hn Hnb. destruct g; [by destruct Hn; apply Hsolo|].
    destruct (Z.ltb_spec (nb_salaries p) 11); [lia | done].
  - tauto.
  - tauto.
  - lia.
Qed.

(** The case that the form never produces: a negative count with a
    contract type other than "Aucun salarié" takes the [< 11] branch. *)
Lemma size_tag_negative_count p :
  ¬ solo_case p → nb_salaries p < 0 →
  size_tags_of (segment (infer_segment p)) = ["TPE < 11"].
Proof.
  intros Hn Hnb. rewrite infer_size_tags.
  destruct (_ || _) eqn:Hg; [by apply solo_case_guard in Hg|].
  destruct (Z.ltb_spec (nb_salaries p) 11); [done | lia].
Qed.

(* ================================================================== *)
(** ** Determinism *)
(* ================================================================== *)








(* ================================================================== *)
(** ** Further properties: the rationale dictionary and [add_offer] *)
(* ================================================================== *)

(** X1. [safe_add] appends the value at the end of the list stored under
    the key (the empty list when the key is new), and leaves every other
    key as it was. *)
Theorem safe_add_appends (m : gmap string (list string)) (k v : string) :
  safe_add m k v !! k = Some (default [] (m !! k) ++ [v])
  ∧ ∀ k', k' ≠ k → safe_add m k v !! k' = m !! k'.
Proof.
  split; [apply safe_add_lookup|].
  intros k' Hne. by apply safe_add_lookup_ne.
Qed.

(** X2. Two [safe_add] on the same key accumulate the values in call
    order; two [safe_add] on different keys commute. *)
Theorem safe_add_twice (m : gmap string (list string))
    (k1 k2 v1 v2 : string) :
  safe_add (safe_add m k1 v1) k1 v2 !! k1
  = Some (default [] (m !! k1) ++ [v1; v2])
  ∧ (k1 ≠ k2 →
     safe_add (safe_add m k1 v1) k2 v2 = safe_add (safe_add m k2 v2) k1 v1).
Proof.
  split.
  - rewrite safe_add_lookup, safe_add_lookup. cbn. by rewrite <- app_assoc.
  - intros Hne. apply map_eq. intros k.
    destruct (decide (k = k1)) as [->|H1]; [|destruct (decide (k = k2)) as [->|H2]].
    + rewrite (safe_add_lookup_ne _ k2) by done.
      by rewrite !safe_add_lookup, safe_add_lookup_ne.
    + rewrite (safe_add_lookup_ne _ k1 _ k2) by done.
      by rewrite !safe_add_lookup, safe_add_lookup_ne.
    + by rewrite !safe_add_lookup_ne.
Qed.

Lemma safe_add_twice_witness :
  safe_add (safe_add ∅ "a" "x") "b" "y" = safe_add (safe_add ∅ "b" "y") "a" "x".
Proof. apply (safe_add_twice ∅ "a" "b" "x" "y"). done. Defined.

(** X3. [add_offer] raises exactly on the codes that are not keys of the
    catalogue; on a key it appends one offer, with the code it was given
    and the label and price of the catalogue, after the offers already
    there, and it never removes a label from the rationale mapping. *)
Theorem add_offer_effect (c r : string) (st : Locals) :
  (add_offer c r st = None ↔ PRICING_TABLE !! c = None)
  ∧ ∀ st', add_offer c r st = Some st' →
      (∃ o, st_offers st' = st_offers st ++ [o] ∧ code o = c ∧ priced o
            ∧ st_rationales st' !! libelle o
              = Some (default [] (st_rationales st !! libelle o) ++ [r]))
      ∧ dom (st_rationales st) ⊆ dom (st_rationales st').
Proof.
  unfold add_offer. destruct (PRICING_TABLE !! c) as [[lib px]|] eqn:Hc.
  - split; [done|]. intros st' [= <-]. cbn. split.
    + eexists. split; [reflexivity|]. cbn. split; [done|].
      split; [exact Hc | apply safe_add_lookup].
    + intros k [l Hk]%elem_of_dom. apply elem_of_dom.
      destruct (decide (k = lib)) as [->|Hne].
      * rewrite safe_add_lookup. eauto.
      * rewrite safe_add_lookup_ne by done. eauto.
  - split; [done|]. intros st' [=].
Qed.

(* ================================================================== *)
(** ** Further properties: the offer engine *)
(* ================================================================== *)

Lemma priced_libelle o : priced o → catalogue_libelle (code o) = Some (libelle o).
Proof. unfold priced, catalogue_libelle. by intros ->. Qed.

(** Two rules never share a label: the labels of the codes of the rules
    are pairwise distinct. *)
Lemma rule_labels_NoDup : NoDup (catalogue_libelle <$> rule_codes).
Proof. apply (bool_decide_unpack _). by vm_compute. Qed.

Lemma priced_labels l :
  Forall priced l → Some <$> (libelle <$> l) = catalogue_libelle <$> (code <$> l).
Proof.
  induction 1 as [|o l Ho _ IH]; [done|]. cbn.
  by rewrite IH, (priced_libelle o Ho).
Qed.

(** Calls of [add_offer] whose labels are new and pairwise distinct keep
    one reason per label. *)
Lemma add_all_one_reason l st :
  Forall (λ c, is_Some (PRICING_TABLE !! c)) l.*1 →
  Forall priced (st_offers st) →
  NoDup (catalogue_libelle <$> ((code <$> st_offers st) ++ l.*1)) →
  one_reason_each st →
  ∃ st', add_all add_offer l st = Some st' ∧ one_reason_each st'.
Proof.
  revert st. induction l as [|[c r] l IH]; intros st Hl Hpr Hnd Hone.
  - by exists st.
  - rewrite fmap_cons in Hl. apply Forall_cons in Hl as [[[lib px] Hc] Hl].
    cbn [add_all fst snd] in *. unfold seq.
    rewrite (add_offer_run _ _ _ _ Hc). cbn [mbind option_bind].
    cbn [info_libelle info_prix].
    set (st1 := mkLocals _ _).
    assert (Some lib ∉ Some <$> (libelle <$> st_offers st)) as Hnew.
    { rewrite (priced_labels _ Hpr).
      assert (catalogue_libelle c = Some lib) as Hlc
        by (unfold catalogue_libelle; by rewrite Hc).
      rewrite fmap_app, fmap_cons in Hnd.
      apply NoDup_app in Hnd as (_ & Hnd & _).
      intros Hin. apply (Hnd _ Hin). rewrite <- Hlc. by left. }
    assert (lib ∉ libelle <$> st_offers st) as Hnew'.
    { intros Hin. apply Hnew. by apply list_elem_of_fmap_2. }
    destruct (IH st1) as (st' & Hrun & Hone'); [done | | | |by exists st'].
    + subst st1. cbn. apply Forall_app. split; [done|].
      by apply Forall_singleton.
    + subst st1. cbn [st_offers]. rewrite (fmap_app code), <- app_assoc.
      exact Hnd.
    + intros k. subst st1. cbn [st_offers st_rationales].
      destruct (Hone k) as [Hk1 Hk2].
      destruct (decide (k = lib)) as [->|Hne].
      * rewrite safe_add_lookup.
        assert (st_rationales st !! lib = None) as ->.
        { destruct (st_rationales st !! lib) eqn:E; [|done].
          exfalso. apply Hnew'. apply Hk1. eauto. }
        split; [|by intros rs [= <-]].
        split; [eauto|]. intros _. rewrite fmap_app. cbn.
        apply elem_of_app. right. by left.
      * rewrite safe_add_lookup_ne by done. split; [|exact Hk2].
        rewrite <- Hk1, fmap_app. cbn. rewrite elem_of_app, list_elem_of_singleton.
        tauto.
Qed.

Lemma compute_offers_one_reason p :
  ∃ r, compute_offers p = Some r
    ∧ one_reason_each (mkLocals (offers r) (rationales r)).
Proof.
  destruct (compute_offers_run p) as (r & Hr & Hraw & _).
  exists r. split; [done|].
  unfold raw_locals in Hraw. rewrite (compute_rules_calls add_offer p) in Hraw.
  destruct (add_all_one_reason (fired p) (mkLocals [] ∅)) as (st & Hrun & Hone).
  - apply fired_in_catalogue.
  - constructor.
  - cbn. eapply sublist_NoDup; [apply rule_labels_NoDup|].
    apply fmap_sublist, fired_sub.
  - intros k. cbn. split.
    + rewrite lookup_empty. split; [by intros ?%elem_of_nil | by intros [? ?]].
    + by rewrite lookup_empty.
  - rewrite Hrun in Hraw. by injection Hraw as ->.
Qed.

(** X4. For every profile, the keys of the rationale mapping returned by
    [compute_offers] are exactly the labels of the returned offers, and
    each of them carries exactly one reason: two rules never write under
    the same label. *)
Theorem rationales_one_reason_per_offer (p : ClientProfile) :
  ∃ r, compute_offers p = Some r
    ∧ (∀ k, k ∈ dom (rationales r) ↔ k ∈ libelle <$> offers r)
    ∧ (∀ k rs, rationales r !! k = Some rs → length rs = 1%nat)
    ∧ size (rationales r) = length (offers r).
Proof.
  destruct (compute_offers_one_reason p) as (r & Hr & Hone).
  destruct (compute_offers_run p) as (r' & Hr' & _ & Hcodes & Hpr & _).
  rewrite Hr in Hr'. injection Hr' as <-.
  exists r. split; [done|]. cbn in Hone.
  assert (∀ k, k ∈ dom (rationales r) ↔ k ∈ libelle <$> offers r) as Hdom.
  { intros k. rewrite elem_of_dom. symmetry. apply Hone. }
  split; [done|]. split; [intros k; apply Hone|].
  assert (NoDup (libelle <$> offers r)) as Hnd.
  { apply (NoDup_fmap_1 Some). rewrite (priced_labels _ Hpr), Hcodes.
    eapply sublist_NoDup; [apply rule_labels_NoDup|].
    apply fmap_sublist, fired_sub. }
  rewrite <- size_dom.
  assert (dom (rationales r) = list_to_set (libelle <$> offers r)) as ->.
  { apply set_eq. intros k. by rewrite Hdom, elem_of_list_to_set. }
  rewrite size_list_to_set by done. by rewrite length_fmap.
Qed.

Lemma price_sum_app l1 l2 : price_sum (l1 ++ l2) = price_sum l1 + price_sum l2.
Proof.
  unfold price_sum. induction l1 as [|c l1 IH]; cbn; [done|].
  rewrite IH. lia.
Qed.

Lemma sum_prix_price_sum l :
  Forall priced l → sum_prix l = price_sum (code <$> l).
Proof.
  intros Hl. rewrite sum_prix_foldr.
  unfold price_sum.
  induction Hl as [|o l Ho _ IH]; [done|]. cbn. rewrite IH.
  unfold catalogue_prix. by rewrite Ho.
Qed.

(** Converts the boolean guards recorded in the context into
    propositions. *)
Ltac guard_props :=
  repeat match goal with
         | H : _ && _ = true |- _ => apply andb_true_iff in H as [? ?]
         | H : _ || _ = false |- _ => apply orb_false_iff in H as [? ?]
         | H : _ || _ = true |- _ => apply orb_true_iff in H
         | H : _ && _ = false |- _ => apply andb_false_iff in H
         | H : String.eqb _ _ = true |- _ => apply String.eqb_eq in H
         | H : String.eqb _ _ = false |- _ => apply String.eqb_neq in H
         | H : (_ >? _) = _ |- _ => rewrite Z.gtb_ltb in H
         | H : (_ >=? _) = _ |- _ => rewrite Z.geb_leb in H
         | H : (_ <? _) = true |- _ => apply Z.ltb_lt in H
         | H : (_ <? _) = false |- _ => apply Z.ltb_ge in H
         | H : (_ <=? _) = true |- _ => apply Z.leb_le in H
         | H : (_ <=? _) = false |- _ => apply Z.leb_gt in H
         | H : (_ =? _) = true |- _ => apply Z.eqb_eq in H
         | H : (_ =? _) = false |- _ => apply Z.eqb_neq in H
         end.

(** Number and price of the offers of each block. *)
Lemma social_bounds p :
  (length (fired_social p) ≤ 2)%nat
  ∧ 0 ≤ price_sum (fired_social p).*1 ≤ 900.
Proof. unfold fired_social, calls, rules_social. guards; compute_done. Qed.

Lemma rse_bounds p :
  (length (fired_rse p) ≤ 2)%nat ∧ 0 ≤ price_sum (fired_rse p).*1 ≤ 1650.
Proof. unfold fired_rse, calls, rules_rse. guards; compute_done. Qed.

Lemma coaching_bounds p :
  (length (fired_coaching p) ≤ 1)%nat
  ∧ 0 ≤ price_sum (fired_coaching p).*1 ≤ 390.
Proof.
  unfold fired_coaching, calls, rules_coaching.
  guards; try compute_done. guard_props. congruence.
Qed.

Lemma patrimonial_bounds p :
  (length (fired_patrimonial p) ≤ 2)%nat
  ∧ 0 ≤ price_sum (fired_patrimonial p).*1 ≤ 2700.
Proof. unfold fired_patrimonial, calls, rules_patrimonial. guards; compute_done. Qed.

Lemma fiscal_bounds p :
  (length (fired_fiscal p) ≤ 2)%nat
  ∧ 0 ≤ price_sum (fired_fiscal p).*1 ≤ 1030.
Proof. unfold fired_fiscal, calls, rules_fiscal. guards; compute_done. Qed.

Lemma gestion_bounds p :
  (2 ≤ length (fired_gestion p) ≤ 3)%nat
  ∧ 520 ≤ price_sum (fired_gestion p).*1 ≤ 840.
Proof. unfold fired_gestion, calls, rules_gestion. guards; compute_done. Qed.

Lemma digital_bounds p :
  (length (fired_digital p) ≤ 1)%nat
  ∧ 0 ≤ price_sum (fired_digital p).*1 ≤ 420.
Proof. unfold fired_digital, calls, rules_digital. guards; compute_done. Qed.

Lemma sector_bounds p :
  (length (fired_sector p) ≤ 1)%nat
  ∧ 0 ≤ price_sum (fired_sector p).*1 ≤ 350.
Proof. unfold fired_sector, calls, rules_sector. guards; compute_done. Qed.

Lemma transmission_bounds p :
  (length (fired_transmission p) ≤ 2)%nat
  ∧ 0 ≤ price_sum (fired_transmission p).*1 ≤ 1950.
Proof.
  unfold fired_transmission, calls, rules_transmission. guards; compute_done.
Qed.

Lemma fired_bounds p :
  (2 ≤ length (fired p) ≤ 16)%nat ∧ 520 ≤ price_sum (fired p).*1 ≤ 10230.
Proof.
  rewrite fired_codes, !price_sum_app. unfold fired. rewrite !length_app.
  pose proof (social_bounds p). pose proof (rse_bounds p).
  pose proof (coaching_bounds p). pose proof (patrimonial_bounds p).
  pose proof (fiscal_bounds p). pose proof (gestion_bounds p).
  pose proof (digital_bounds p). pose proof (sector_bounds p).
  pose proof (transmission_bounds p). lia.
Qed.

(** X5. For every profile the offers returned by [compute_offers] come in
    the order of the rules of the source, and there are between 2 and 16
    of them; both numbers are reached. *)
Theorem offers_in_rule_order_and_count (p : ClientProfile) :
  (∃ r, compute_offers p = Some r
     ∧ code <$> offers r `sublist_of` rule_codes
     ∧ (2 ≤ length (offers r) ≤ 16)%nat)
  ∧ (length ∘ offers <$> compute_offers profile_min = Some 2%nat)
  ∧ (length ∘ offers <$> compute_offers profile_max = Some 16%nat).
Proof.
  split; [|split; vm_compute; reflexivity].
  destruct (compute_offers_run p) as (r & Hr & _ & Hcodes & _).
  exists r. split; [done|]. rewrite Hcodes. split; [apply fired_sub|].
  rewrite <- (length_fmap code), Hcodes, length_fmap.
  apply fired_bounds.
Qed.

(** X6. For every profile the total returned by [compute_offers] lies
    between 520 (the two offers that every profile gets) and 10230; both
    totals are reached. *)
Theorem total_ht_bounds (p : ClientProfile) :
  (∃ r, compute_offers p = Some r ∧ 520 ≤ total_ht r ≤ 10230)
  ∧ total_ht <$> compute_offers profile_min = Some 520
  ∧ total_ht <$> compute_offers profile_max = Some 10230.
Proof.
  split; [|split; vm_compute; reflexivity].
  destruct (compute_offers_run p) as (r & Hr & _ & Hcodes & Hpr & _ & Htot).
  exists r. split; [done|].
  rewrite Htot, (sum_prix_price_sum _ Hpr), Hcodes. apply fired_bounds.
Qed.

(** The guards on membership in a Python list, as propositions. *)
Ltac guard_props_in :=
  guard_props;
  repeat match goal with
         | H : str_in _ _ = true |- _ => apply str_in_elem_of in H
         | H : str_in _ _ = false |- _ =>
             apply not_true_iff_false in H; rewrite str_in_elem_of in H
         end.

(** An offer is in the list if and only if its block emits it. *)
Ltac into_block :=
  let H := fresh "H" in
  split;
  [ intros H; find_block H; exact H
  | intros H; rewrite fired_codes, !elem_of_app; tauto ].

Ltac each_code := rewrite !elem_of_cons, elem_of_nil; intros H;
  repeat (destruct H as [->|H]; [into_block|]); destruct H.

Lemma in_social p c :
  c ∈ codes_social → c ∈ (fired p).*1 ↔ c ∈ (fired_social p).*1.
Proof. unfold codes_social. each_code. Qed.

Lemma in_rse p c : c ∈ codes_rse → c ∈ (fired p).*1 ↔ c ∈ (fired_rse p).*1.
Proof. unfold codes_rse. each_code. Qed.

Lemma in_coaching p c :
  c ∈ codes_coaching → c ∈ (fired p).*1 ↔ c ∈ (fired_coaching p).*1.
Proof. unfold codes_coaching. each_code. Qed.

Lemma in_patrimonial p c :
  c ∈ codes_patrimonial → c ∈ (fired p).*1 ↔ c ∈ (fired_patrimonial p).*1.
Proof. unfold codes_patrimonial. each_code. Qed.

Lemma in_fiscal p c :
  c ∈ codes_fiscal → c ∈ (fired p).*1 ↔ c ∈ (fired_fiscal p).*1.
Proof. unfold codes_fiscal. each_code. Qed.

Lemma in_gestion p c :
  c ∈ codes_gestion → c ∈ (fired p).*1 ↔ c ∈ (fired_gestion p).*1.
Proof. unfold codes_gestion. each_code. Qed.

Lemma in_digital p c :
  c ∈ codes_digital → c ∈ (fired p).*1 ↔ c ∈ (fired_digital p).*1.
Proof. unfold codes_digital. each_code. Qed.

Lemma in_sector p c :
  c ∈ codes_sector → c ∈ (fired p).*1 ↔ c ∈ (fired_sector p).*1.
Proof. unfold codes_sector. each_code. Qed.

Lemma in_transmission p c :
  c ∈ codes_transmission → c ∈ (fired p).*1 ↔ c ∈ (fired_transmission p).*1.
Proof. unfold codes_transmission. each_code. Qed.

(** Decides membership of a literal code in a literal list of codes. *)
Ltac listed := apply (bool_decide_unpack _); vm_compute; exact I.

(** Proves [code ∈ block ↔ guard] by cases on the guards of the block. *)
Ltac decide_offer :=
  guards; guard_props_in;
  (split; [ let H := fresh "H" in intros H; try (not_listed H) | intros ?; try listed ]).

Ltac settle :=
  repeat match goal with
         | H : _ ∨ _ |- _ => destruct H
         | H : _ ∧ _ |- _ => destruct H
         end;
  guard_props_in;
  first [ solve [intuition (first [lia | congruence])]
        | solve [exfalso; intuition (first [lia | congruence])] ].

Lemma social_plus_iff p :
  "social_plus" ∈ (fired p).*1
  ↔ 11 ≤ nb_salaries p ∨ (0 < nb_salaries p ∧ presence_cadres p = true).
Proof.
  rewrite in_social by listed. unfold fired_social, calls, rules_social.
  decide_offer; settle.
Qed.

Lemma social_basique_iff p :
  "social_basique" ∈ (fired p).*1
  ↔ 0 < nb_salaries p < 11 ∧ presence_cadres p = false.
Proof.
  rewrite in_social by listed. unfold fired_social, calls, rules_social.
  decide_offer; try settle.
  all: destruct (presence_cadres p); settle.
Qed.

Lemma social_premium_iff p :
  "social_premium" ∈ (fired p).*1 ↔ 25 ≤ nb_salaries p.
Proof.
  rewrite in_social by listed. unfold fired_social, calls, rules_social.
  decide_offer; settle.
Qed.

Lemma rse_diag_iff p : "rse_diag" ∈ (fired p).*1 ↔ rse_sensible p = true.
Proof.
  rewrite in_rse by listed. unfold fired_rse, calls, rules_rse.
  decide_offer; settle.
Qed.

Lemma rse_reporting_iff p :
  "rse_reporting" ∈ (fired p).*1
  ↔ rse_sensible p = true ∧ rse_pollution p ∈ ["Moyenne"; "Importante"].
Proof.
  rewrite in_rse by listed. unfold fired_rse, calls, rules_rse.
  decide_offer; settle.
Qed.

Lemma coaching_light_iff p :
  "coaching_light" ∈ (fired p).*1
  ↔ coaching_client p = true ∧ patrimoine_dirigeant p = "Modeste".
Proof.
  rewrite in_coaching by listed. unfold fired_coaching, calls, rules_coaching.
  decide_offer; settle.
Qed.

Lemma coaching_pro_iff p :
  "coaching_pro" ∈ (fired p).*1
  ↔ coaching_client p = true ∧ patrimoine_dirigeant p = "Important".
Proof.
  rewrite in_coaching by listed. unfold fired_coaching, calls, rules_coaching.
  decide_offer; settle.
Qed.

Lemma patrimoine_base_iff p :
  "patrimoine_base" ∈ (fired p).*1
  ↔ patrimoniale p = true ∨ patrimoine_dirigeant p = "Important".
Proof.
  rewrite in_patrimonial by listed.
  unfold fired_patrimonial, calls, rules_patrimonial.
  decide_offer; settle.
Qed.

Lemma patrimoine_avance_iff p :
  "patrimoine_avance" ∈ (fired p).*1
  ↔ ("Holding" ∈ particulier_fiscal p ∨ "SCI" ∈ particulier_fiscal p)
    ∧ (patrimoniale p = true ∨ patrimoine_dirigeant p = "Important").
Proof.
  rewrite in_patrimonial by listed.
  unfold fired_patrimonial, calls, rules_patrimonial.
  decide_offer; settle.
Qed.

Lemma nonempty_guard (l : list string) :
  0 < Z.of_nat (length l) ↔ l ≠ [].
Proof. destruct l; cbn; split; (done || lia). Qed.

Lemma fiscal_part_iff p :
  "fiscal_part" ∈ (fired p).*1 ↔ particulier_fiscal p ≠ [].
Proof.
  rewrite in_fiscal by listed. unfold fired_fiscal, calls, rules_fiscal.
  rewrite <- nonempty_guard. decide_offer; settle.
Qed.

Lemma international_iff p :
  "international" ∈ (fired p).*1 ↔ "International" ∈ particulier_fiscal p.
Proof.
  rewrite in_fiscal by listed. unfold fired_fiscal, calls, rules_fiscal.
  decide_offer; try settle.
  exfalso. destruct (particulier_fiscal p); [by eapply elem_of_nil | cbn in *; lia].
Qed.

Lemma tresorerie_iff p :
  "tresorerie" ∈ (fired p).*1
  ↔ caisse p = true ∨ secteur p ∈ ["E-commerce"; "Industrie"; "BTP"].
Proof.
  rewrite in_gestion by listed. unfold fired_gestion, calls, rules_gestion.
  decide_offer; settle.
Qed.

Lemma digital_start_iff p :
  "digital_start" ∈ (fired p).*1 ↔ digitalisation p = "Pas informatique".
Proof.
  rewrite in_digital by listed. unfold fired_digital, calls, rules_digital.
  decide_offer; settle.
Qed.

Lemma digital_full_iff p :
  "digital_full" ∈ (fired p).*1
  ↔ digitalisation p = "Informatique rudimentaire".
Proof.
  rewrite in_digital by listed. unfold fired_digital, calls, rules_digital.
  decide_offer; settle.
Qed.

Lemma btp_pack_iff p : "btp_pack" ∈ (fired p).*1 ↔ secteur p = "BTP".
Proof.
  rewrite in_sector by listed. unfold fired_sector, calls, rules_sector.
  decide_offer; settle.
Qed.

Lemma retraite_iff p :
  "retraite" ∈ (fired p).*1 ↔ proche_retraite p ∈ ["À 5 ans"; "< 2 ans"].
Proof.
  rewrite in_transmission by listed.
  unfold fired_transmission, calls, rules_transmission.
  decide_offer; settle.
Qed.

Lemma succession_iff p :
  "succession" ∈ (fired p).*1 ↔ succession_envisagee p = true.
Proof.
  rewrite in_transmission by listed.
  unfold fired_transmission, calls, rules_transmission.
  decide_offer; settle.
Qed.

(** X7. Which social pack a profile gets: "social_plus" exactly from 11
    employees on, or with at least one employee and cadres;
    "social_basique" exactly for 1 to 10 employees without cadres;
    "social_premium" exactly from 25 employees on; so a profile with
    employees gets exactly one of the first two, and a profile without
    employees gets no social pack. *)
Theorem social_pack_decision (p : ClientProfile) :
  ∃ r, compute_offers p = Some r
    ∧ ("social_plus" ∈ code <$> offers r
       ↔ 11 ≤ nb_salaries p ∨ (0 < nb_salaries p ∧ presence_cadres p = true))
    ∧ ("social_basique" ∈ code <$> offers r
       ↔ 0 < nb_salaries p < 11 ∧ presence_cadres p = false)
    ∧ ("social_premium" ∈ code <$> offers r ↔ 25 ≤ nb_salaries p)
    ∧ (0 < nb_salaries p
       ↔ "social_plus" ∈ code <$> offers r
         ∨ "social_basique" ∈ code <$> offers r).
Proof.
  destruct (compute_offers_run p) as (r & Hr & _ & Hcodes & _).
  exists r. split; [done|]. rewrite Hcodes.
  rewrite social_plus_iff, social_basique_iff, social_premium_iff.
  repeat split; try tauto; try lia.
  - intros Hnb. destruct (presence_cadres p); [left; right; by split|].
    destruct (Z.le_gt_cases 11 (nb_salaries p)); [by left; left|].
    right. split; [lia | done].
Qed.

(** X8. The guard of every other conditional offer, read on the result of
    [compute_offers]: the offer is in the list exactly when its guard
    holds on the profile. *)
Theorem guarded_offers_decision (p : ClientProfile) :
  ∃ r, compute_offers p = Some r
    ∧ ("rse_diag" ∈ code <$> offers r ↔ rse_sensible p = true)
    ∧ ("rse_reporting" ∈ code <$> offers r
       ↔ rse_sensible p = true
         ∧ rse_pollution p ∈ ["Moyenne"; "Importante"])
    ∧ ("coaching_light" ∈ code <$> offers r
       ↔ coaching_client p = true ∧ patrimoine_dirigeant p = "Modeste")
    ∧ ("coaching_pro" ∈ code <$> offers r
       ↔ coaching_client p = true ∧ patrimoine_dirigeant p = "Important")
    ∧ ("patrimoine_base" ∈ code <$> offers r
       ↔ patrimoniale p = true ∨ patrimoine_dirigeant p = "Important")
    ∧ ("patrimoine_avance" ∈ code <$> offers r
       ↔ ("Holding" ∈ particulier_fiscal p ∨ "SCI" ∈ particulier_fiscal p)
         ∧ (patrimoniale p = true ∨ patrimoine_dirigeant p = "Important"))
    ∧ ("fiscal_part" ∈ code <$> offers r ↔ particulier_fiscal p ≠ [])
    ∧ ("international" ∈ code <$> offers r
       ↔ "International" ∈ particulier_fiscal p)
    ∧ ("tresorerie" ∈ code <$> offers r
       ↔ caisse p = true ∨ secteur p ∈ ["E-commerce"; "Industrie"; "BTP"])
    ∧ ("digital_start" ∈ code <$> offers r
       ↔ digitalisation p = "Pas informatique")
    ∧ ("digital_full" ∈ code <$> offers r
       ↔ digitalisation p = "Informatique rudimentaire")
    ∧ ("btp_pack" ∈ code <$> offers r ↔ secteur p = "BTP")
    ∧ ("retraite" ∈ code <$> offers r
       ↔ proche_retraite p ∈ ["À 5 ans"; "< 2 ans"])
    ∧ ("succession" ∈ code <$> offers r ↔ succession_envisagee p = true).
Proof.
  destruct (compute_offers_run p) as (r & Hr & _ & Hcodes & _).
  exists r. split; [done|]. rewrite Hcodes.
  repeat match goal with |- _ ∧ _ => split end;
    first [ apply rse_diag_iff | apply rse_reporting_iff
          | apply coaching_light_iff | apply coaching_pro_iff
          | apply patrimoine_base_iff | apply patrimoine_avance_iff
          | apply fiscal_part_iff | apply international_iff
          | apply tresorerie_iff | apply digital_start_iff
          | apply digital_full_iff | apply btp_pack_iff
          | apply retraite_iff | apply succession_iff ].
Qed.

(** X9. Offers that never come alone: "social_premium" comes with
    "social_plus", "rse_reporting" with "rse_diag", "international" with
    "fiscal_part", "patrimoine_avance" and "coaching_pro" with
    "patrimoine_base", "btp_pack" with "tresorerie". *)
Theorem offers_come_with (p : ClientProfile) :
  ∃ r, compute_offers p = Some r
    ∧ ("social_premium" ∈ code <$> offers r →
       "social_plus" ∈ code <$> offers r)
    ∧ ("rse_reporting" ∈ code <$> offers r →
       "rse_diag" ∈ code <$> offers r)
    ∧ ("international" ∈ code <$> offers r →
       "fiscal_part" ∈ code <$> offers r)
    ∧ ("patrimoine_avance" ∈ code <$> offers r →
       "patrimoine_base" ∈ code <$> offers r)
    ∧ ("coaching_pro" ∈ code <$> offers r →
       "patrimoine_base" ∈ code <$> offers r)
    ∧ ("btp_pack" ∈ code <$> offers r →
       "tresorerie" ∈ code <$> offers r).
Proof.
  destruct (compute_offers_run p) as (r & Hr & _ & Hcodes & _).
  exists r. split; [done|]. rewrite Hcodes.
  rewrite social_premium_iff, social_plus_iff, rse_reporting_iff,
    rse_diag_iff, international_iff, fiscal_part_iff, patrimoine_avance_iff,
    patrimoine_base_iff, coaching_pro_iff, btp_pack_iff, tresorerie_iff.
  repeat split; try tauto.
  - intros ?. left. lia.
  - intros Hin Hnil. rewrite Hnil in Hin. by apply elem_of_nil in Hin.
  - intros ->. right. apply (bool_decide_unpack _). by vm_compute.
Qed.

(** X10. The two engines read the size differently: on a profile with
    employees whose contract type is "Aucun salarié", [infer_segment]
    gives the Solo tag while [compute_offers] still returns a social
    pack. *)
Theorem solo_segment_with_social_pack (p : ClientProfile) :
  0 < nb_salaries p → type_contrats p = "Aucun salarié" →
  size_tags_of (segment (infer_segment p)) = ["Solo/Très petite structure"]
  ∧ ∃ r, compute_offers p = Some r
      ∧ ("social_plus" ∈ code <$> offers r
         ∨ "social_basique" ∈ code <$> offers r).
Proof.
  intros Hnb Htc. split.
  - rewrite infer_size_tags.
    assert ((nb_salaries p =? 0)
            || String.eqb (type_contrats p) "Aucun salarié" = true) as ->; [|done].
    apply solo_case_guard. by right.
  - destruct (compute_offers_run p) as (r & Hr & _ & Hcodes & _).
    exists r. split; [done|]. rewrite Hcodes.
    rewrite social_plus_iff, social_basique_iff.
    destruct (presence_cadres p); [left; right; by split|].
    destruct (Z.le_gt_cases 11 (nb_salaries p)); [by left; left|].
    right. split; [lia | done].
Qed.

Lemma solo_segment_with_social_pack_witness :
  size_tags_of
    (segment (infer_segment
       (mkProfile "Client" "Services" 5 false "Aucun salarié" false
          "Faible/Non" false "Modeste" [] false false
          "Informatique avancée" "Loin" false false)))
  = ["Solo/Très petite structure"]
  ∧ ∃ r, compute_offers
           (mkProfile "Client" "Services" 5 false "Aucun salarié" false
              "Faible/Non" false "Modeste" [] false false
              "Informatique avancée" "Loin" false false) = Some r
      ∧ ("social_plus" ∈ code <$> offers r
         ∨ "social_basique" ∈ code <$> offers r).
Proof. apply solo_segment_with_social_pack; [cbn; lia | reflexivity]. Defined.

(* ================================================================== *)
(** ** Further properties: the segmentation engine *)
(* ================================================================== *)

Ltac seg_block := guards; rewrite ?app_nil_r, <- ?app_assoc; reflexivity.

Lemma seg_by_size_flags p s : l_risk_flags (seg_by_size p s) = l_risk_flags s.
Proof. unfold seg_by_size. by guards. Qed.

Lemma seg_sector_flags p s :
  l_risk_flags (seg_sector p s) = l_risk_flags s ++ flags_sector p.
Proof. unfold flags_sector, flags_of, seg_sector. seg_block. Qed.

Lemma seg_hr_flags p s :
  l_risk_flags (seg_hr p s) = l_risk_flags s ++ flags_hr p.
Proof. unfold flags_hr, flags_of, seg_hr. seg_block. Qed.

Lemma seg_rse_flags p s :
  l_risk_flags (seg_rse p s) = l_risk_flags s ++ flags_rse p.
Proof. unfold flags_rse, flags_of, seg_rse. seg_block. Qed.

Lemma seg_digital_flags p s :
  l_risk_flags (seg_digital p s) = l_risk_flags s ++ flags_digital p.
Proof. unfold flags_digital, flags_of, seg_digital. seg_block. Qed.

Lemma seg_transmission_flags p s :
  l_risk_flags (seg_transmission p s) = l_risk_flags s ++ flags_transmission p.
Proof. unfold flags_transmission, flags_of, seg_transmission. seg_block. Qed.

Lemma seg_fiscal_flags p s :
  l_risk_flags (seg_fiscal p s) = l_risk_flags s ++ flags_fiscal p.
Proof. unfold flags_fiscal, flags_of, seg_fiscal. seg_block. Qed.

(** The risk flags returned by [infer_segment], block by block. *)
Lemma infer_risk_flags p :
  risk_flags (infer_segment p)
  = flags_sector p ++ flags_hr p ++ flags_rse p ++ flags_digital p
    ++ flags_transmission p ++ flags_fiscal p.
Proof.
  unfold infer_segment, infer_locals. cbn [risk_flags].
  rewrite seg_fiscal_flags, seg_transmission_flags, seg_digital_flags,
    seg_rse_flags, seg_hr_flags, seg_sector_flags, seg_by_size_flags.
  cbn [l_risk_flags app]. by rewrite <- !app_assoc.
Qed.

(** The flags of a block are among its flags, in source order, and their
    number is bounded. *)
Ltac flag_block :=
  guards; guard_props_in; try congruence; (split; [|cbn; lia]);
  repeat first [ apply sublist_nil_l | apply sublist_skip
               | apply sublist_cons ].

Lemma flags_sector_sub p :
  flags_sector p `sublist_of` all_flags_sector
  ∧ (length (flags_sector p) ≤ 1)%nat.
Proof.
  unfold flags_sector, flags_of, seg_sector, all_flags_sector. flag_block.
Qed.

Lemma flags_hr_sub p :
  flags_hr p `sublist_of` all_flags_hr ∧ (length (flags_hr p) ≤ 2)%nat.
Proof. unfold flags_hr, flags_of, seg_hr, all_flags_hr. flag_block. Qed.

Lemma flags_rse_sub p :
  flags_rse p `sublist_of` all_flags_rse ∧ (length (flags_rse p) ≤ 1)%nat.
Proof. unfold flags_rse, flags_of, seg_rse, all_flags_rse. flag_block. Qed.

Lemma flags_digital_sub p :
  flags_digital p `sublist_of` all_flags_digital
  ∧ (length (flags_digital p) ≤ 1)%nat.
Proof.
  unfold flags_digital, flags_of, seg_digital, all_flags_digital. flag_block.
Qed.

Lemma flags_transmission_sub p :
  flags_transmission p `sublist_of` all_flags_transmission
  ∧ (length (flags_transmission p) ≤ 2)%nat.
Proof.
  unfold flags_transmission, flags_of, seg_transmission,
    all_flags_transmission.
  flag_block.
Qed.

Lemma flags_fiscal_sub p :
  flags_fiscal p `sublist_of` all_flags_fiscal
  ∧ (length (flags_fiscal p) ≤ 3)%nat.
Proof.
  unfold flags_fiscal, flags_of, seg_fiscal, all_flags_fiscal. flag_block.
Qed.

Lemma rule_flags_NoDup : NoDup rule_flags.
Proof. apply (bool_decide_unpack _). by vm_compute. Qed.

Lemma risk_flags_sub p : risk_flags (infer_segment p) `sublist_of` rule_flags.
Proof.
  rewrite infer_risk_flags. unfold rule_flags.
  repeat apply sublist_app;
    first [ apply flags_sector_sub | apply flags_hr_sub | apply flags_rse_sub
          | apply flags_digital_sub | apply flags_transmission_sub
          | apply flags_fiscal_sub ].
Qed.

Lemma risk_flags_count p : (length (risk_flags (infer_segment p)) ≤ 10)%nat.
Proof.
  rewrite infer_risk_flags, !length_app.
  pose proof (proj2 (flags_sector_sub p)). pose proof (proj2 (flags_hr_sub p)).
  pose proof (proj2 (flags_rse_sub p)). pose proof (proj2 (flags_digital_sub p)).
  pose proof (proj2 (flags_transmission_sub p)).
  pose proof (proj2 (flags_fiscal_sub p)). lia.
Qed.

(** X11. For every profile the risk flags returned by [infer_segment] come
    in the order of the rules of the source, without a repeated flag, and
    there are at most 10 of them (the three sector flags exclude each
    other, as do the two RSE flags and the two digitalisation flags);
    a profile can have no flag at all, and a profile can have 10. *)
Theorem risk_flags_ordered_distinct_bounded (p : ClientProfile) :
  risk_flags (infer_segment p) `sublist_of` rule_flags
  ∧ NoDup (risk_flags (infer_segment p))
  ∧ (length (risk_flags (infer_segment p)) ≤ 10)%nat
  ∧ risk_flags (infer_segment profile_min) = []
  ∧ length (risk_flags (infer_segment profile_max)) = 10%nat.
Proof.
  split; [apply risk_flags_sub|]. split.
  { eapply sublist_NoDup; [apply rule_flags_NoDup | apply risk_flags_sub]. }
  split; [apply risk_flags_count | split; reflexivity].
Qed.

(** The label of the segment, from the list of tags. *)
Lemma infer_segment_label p :
  segment (infer_segment p)
  = (if (nb_salaries p =? 0)
        || String.eqb (type_contrats p) "Aucun salarié"
     then "Solo/Très petite structure"
     else if nb_salaries p <? 11 then "TPE < 11" else "PME ≥ 11")
    +:+ (if String.eqb (secteur p) "BTP" then " | BTP" else "").
Proof.
  unfold infer_segment. cbn [segment]. rewrite infer_segment_tags.
  by destruct ((nb_salaries p =? 0)
               || String.eqb (type_contrats p) "Aucun salarié"),
    (nb_salaries p <? 11), (String.eqb (secteur p) "BTP").
Qed.

(** X12. The segment label returned by [infer_segment] is never the
    fallback "Standard": it is one of the three size tags, followed by
    " | BTP" exactly when the sector is "BTP", and splitting it on the
    separator gives back the tags. *)
Theorem segment_label_shape (p : ClientProfile) :
  segment (infer_segment p) ≠ "Standard"
  ∧ (∃ t, t ∈ size_tags
        ∧ segment (infer_segment p)
          = t +:+ (if String.eqb (secteur p) "BTP" then " | BTP" else ""))
  ∧ split " | " (segment (infer_segment p)) = l_segment (infer_locals p)
  ∧ ("BTP" ∈ split " | " (segment (infer_segment p)) ↔ secteur p = "BTP").
Proof.
  rewrite infer_segment_label, infer_segment_tags.
  rewrite <- (String.eqb_eq (secteur p)).
  destruct ((nb_salaries p =? 0)
            || String.eqb (type_contrats p) "Aucun salarié"),
    (nb_salaries p <? 11), (String.eqb (secteur p) "BTP");
    (split; [done|]); (split; [eexists; split; [|reflexivity]; listed|]);
    (split; [reflexivity|]); cbn;
    (split; [intros H; try done; not_listed H | intros H; try done; listed]).
Qed.

Lemma flag_cases p f :
  f ∈ risk_flags (infer_segment p) ↔
  f ∈ flags_sector p ∨ f ∈ flags_hr p ∨ f ∈ flags_rse p
  ∨ f ∈ flags_digital p ∨ f ∈ flags_transmission p ∨ f ∈ flags_fiscal p.
Proof. by rewrite infer_risk_flags, !elem_of_app. Qed.

Ltac other_flag_block H sub :=
  apply (λ H, elem_of_sublist _ _ _ H (proj1 (sub _))) in H; not_listed H.

(** Find the block that raised a given flag: the other blocks cannot. *)
Ltac find_flag_block H :=
  apply flag_cases in H as [H|[H|[H|[H|[H|H]]]]];
  [ try (other_flag_block H flags_sector_sub)
  | try (other_flag_block H flags_hr_sub)
  | try (other_flag_block H flags_rse_sub)
  | try (other_flag_block H flags_digital_sub)
  | try (other_flag_block H flags_transmission_sub)
  | try (other_flag_block H flags_fiscal_sub) ].

Ltac into_flag_block :=
  let H := fresh "H" in
  split;
  [ intros H; find_flag_block H; exact H
  | intros H; rewrite flag_cases; tauto ].

Ltac each_flag := rewrite !elem_of_cons, elem_of_nil; intros H;
  repeat (destruct H as [->|H]; [into_flag_block|]); destruct H.

Lemma in_flags_sector p f :
  f ∈ all_flags_sector → f ∈ risk_flags (infer_segment p) ↔ f ∈ flags_sector p.
Proof. unfold all_flags_sector. each_flag. Qed.

Lemma in_flags_hr p f :
  f ∈ all_flags_hr → f ∈ risk_flags (infer_segment p) ↔ f ∈ flags_hr p.
Proof. unfold all_flags_hr. each_flag. Qed.

Lemma in_flags_rse p f :
  f ∈ all_flags_rse → f ∈ risk_flags (infer_segment p) ↔ f ∈ flags_rse p.
Proof. unfold all_flags_rse. each_flag. Qed.

Lemma in_flags_digital p f :
  f ∈ all_flags_digital →
  f ∈ risk_flags (infer_segment p) ↔ f ∈ flags_digital p.
Proof. unfold all_flags_digital. each_flag. Qed.

Lemma in_flags_transmission p f :
  f ∈ all_flags_transmission →
  f ∈ risk_flags (infer_segment p) ↔ f ∈ flags_transmission p.
Proof. unfold all_flags_transmission. each_flag. Qed.

Lemma in_flags_fiscal p f :
  f ∈ all_flags_fiscal → f ∈ risk_flags (infer_segment p) ↔ f ∈ flags_fiscal p.
Proof. unfold all_flags_fiscal. each_flag. Qed.

Lemma flag_chantiers_iff p :
  "Gestion des chantiers et retenues de garantie"
    ∈ risk_flags (infer_segment p) ↔ secteur p = "BTP".
Proof.
  rewrite in_flags_sector by listed. unfold flags_sector, flags_of, seg_sector.
  decide_offer; settle.
Qed.

Lemma flag_cse_iff p :
  "CSE / obligations sociales renforcées" ∈ risk_flags (infer_segment p)
  ↔ 11 ≤ nb_salaries p.
Proof.
  rewrite in_flags_hr by listed. unfold flags_hr, flags_of, seg_hr.
  decide_offer; settle.
Qed.

Lemma flag_cadres_iff p :
  "Cadres & forfait jours" ∈ risk_flags (infer_segment p)
  ↔ 0 < nb_salaries p ∧ presence_cadres p = true.
Proof.
  rewrite in_flags_hr by listed. unfold flags_hr, flags_of, seg_hr.
  decide_offer; settle.
Qed.

Lemma flag_international_iff p :
  "Flux internationaux (prix de transfert/TVA)"
    ∈ risk_flags (infer_segment p)
  ↔ "International" ∈ particulier_fiscal p.
Proof.
  rewrite in_flags_fiscal by listed. unfold flags_fiscal, flags_of, seg_fiscal.
  decide_offer; settle.
Qed.

Lemma flag_tva_iff p :
  "Risque TVA B2C (règles spécifiques)" ∈ risk_flags (infer_segment p)
  ↔ clients_particuliers_avec_tva p = true.
Proof.
  rewrite in_flags_fiscal by listed. unfold flags_fiscal, flags_of, seg_fiscal.
  decide_offer; settle.
Qed.

Lemma flag_retraite_iff p :
  "Horizon retraite à anticiper" ∈ risk_flags (infer_segment p)
  ↔ proche_retraite p ∈ ["À 5 ans"; "< 2 ans"].
Proof.
  rewrite in_flags_transmission by listed.
  unfold flags_transmission, flags_of, seg_transmission.
  decide_offer; settle.
Qed.

Lemma flag_succession_iff p :
  "Projet de succession / transmission" ∈ risk_flags (infer_segment p)
  ↔ succession_envisagee p = true.
Proof.
  rewrite in_flags_transmission by listed.
  unfold flags_transmission, flags_of, seg_transmission.
  decide_offer; settle.
Qed.

Lemma flag_digital_low_iff p :
  "Faible digitalisation (risque d'erreurs et coûts)"
    ∈ risk_flags (infer_segment p)
  ↔ digitalisation p = "Pas informatique".
Proof.
  rewrite in_flags_digital by listed.
  unfold flags_digital, flags_of, seg_digital.
  decide_offer; settle.
Qed.

Lemma flag_digital_partial_iff p :
  "Digitalisation partielle à structurer" ∈ risk_flags (infer_segment p)
  ↔ digitalisation p = "Informatique rudimentaire".
Proof.
  rewrite in_flags_digital by listed.
  unfold flags_digital, flags_of, seg_digital.
  decide_offer; settle.
Qed.

Lemma intensity_iff p :
  compliance_intensity (infer_segment p) = "Renforcée"
  ↔ secteur p = "BTP" ∨ 11 ≤ nb_salaries p
    ∨ "International" ∈ particulier_fiscal p.
Proof.
  rewrite infer_intensity.
  destruct (String.eqb (secteur p) "BTP") eqn:?,
    (nb_salaries p >? 0) eqn:?, (nb_salaries p >=? 11) eqn:?,
    (str_in "International" (particulier_fiscal p)) eqn:?;
    cbn; guard_props_in; split; intros ?; try done; settle.
Qed.

(** X13. Every elevation of the compliance intensity comes with a risk
    flag: the intensity is "Renforcée" exactly when the site-management
    flag, the works-council flag or the international-flows flag is among
    the risk flags; so a profile without risk flag is "Standard". *)
Theorem intensity_elevated_with_flag (p : ClientProfile) :
  (compliance_intensity (infer_segment p) = "Renforcée"
   ↔ "Gestion des chantiers et retenues de garantie"
       ∈ risk_flags (infer_segment p)
     ∨ "CSE / obligations sociales renforcées"
         ∈ risk_flags (infer_segment p)
     ∨ "Flux internationaux (prix de transfert/TVA)"
         ∈ risk_flags (infer_segment p))
  ∧ (risk_flags (infer_segment p) = [] →
     compliance_intensity (infer_segment p) = "Standard").
Proof.
  rewrite intensity_iff, flag_chantiers_iff, flag_cse_iff,
    flag_international_iff.
  split; [done|]. intros Hnil.
  pose proof (intensity_iff p) as Hi. rewrite infer_intensity in Hi |- *.
  destruct (_ || _ || _); [|done]. exfalso.
  rewrite <- flag_chantiers_iff, <- flag_cse_iff, <- flag_international_iff,
    Hnil in Hi.
  destruct (proj1 Hi eq_refl) as [H|[H|H]]; by apply elem_of_nil in H.
Qed.

Lemma intensity_elevated_with_flag_witness :
  compliance_intensity (infer_segment profile_min) = "Standard".
Proof. apply intensity_elevated_with_flag. reflexivity. Defined.

Ltac no_flag :=
  guards; guard_props_in;
  (split; [ intros ?; try done | intros ? ]); settle.

Lemma flags_sector_nil p :
  flags_sector p = []
  ↔ secteur p ≠ "BTP" ∧ secteur p ≠ "E-commerce" ∧ secteur p ≠ "Industrie".
Proof. unfold flags_sector, flags_of, seg_sector. no_flag. Qed.

Lemma flags_hr_nil p :
  flags_hr p = []
  ↔ nb_salaries p < 11 ∧ ¬ (0 < nb_salaries p ∧ presence_cadres p = true).
Proof. unfold flags_hr, flags_of, seg_hr. no_flag. Qed.

Lemma flags_rse_nil p :
  flags_rse p = []
  ↔ ¬ (rse_sensible p = true
       ∧ (rse_pollution p = "Importante" ∨ rse_pollution p = "Moyenne")).
Proof. unfold flags_rse, flags_of, seg_rse. no_flag. Qed.

Lemma flags_digital_nil p :
  flags_digital p = []
  ↔ digitalisation p ≠ "Pas informatique"
    ∧ digitalisation p ≠ "Informatique rudimentaire".
Proof. unfold flags_digital, flags_of, seg_digital. no_flag. Qed.

Lemma flags_transmission_nil p :
  flags_transmission p = []
  ↔ (proche_retraite p ∉ ["À 5 ans"; "< 2 ans"])
    ∧ succession_envisagee p = false.
Proof. unfold flags_transmission, flags_of, seg_transmission. no_flag. Qed.

Lemma flags_fiscal_nil p :
  flags_fiscal p = []
  ↔ ("International" ∉ particulier_fiscal p)
    ∧ ("Holding" ∉ particulier_fiscal p) ∧ ("SCI" ∉ particulier_fiscal p)
    ∧ clients_particuliers_avec_tva p = false.
Proof. unfold flags_fiscal, flags_of, seg_fiscal. no_flag. Qed.

(** X14. When [infer_segment] reports no risk at all: the sector is not
    BTP, E-commerce or Industrie; fewer than 11 employees and no cadres
    among employees; no RSE sensitivity with a medium or important impact;
    an advanced (or unlisted) digitalisation level; no retirement within
    five years and no succession project; neither International, Holding
    nor SCI selected; and no consumer VAT. *)
Theorem no_risk_flag_iff (p : ClientProfile) :
  risk_flags (infer_segment p) = []
  ↔ (secteur p ≠ "BTP" ∧ secteur p ≠ "E-commerce"
     ∧ secteur p ≠ "Industrie")
    ∧ (nb_salaries p < 11
       ∧ ¬ (0 < nb_salaries p ∧ presence_cadres p = true))
    ∧ ¬ (rse_sensible p = true
         ∧ (rse_pollution p = "Importante" ∨ rse_pollution p = "Moyenne"))
    ∧ (digitalisation p ≠ "Pas informatique"
       ∧ digitalisation p ≠ "Informatique rudimentaire")
    ∧ ((proche_retraite p ∉ ["À 5 ans"; "< 2 ans"])
       ∧ succession_envisagee p = false)
    ∧ (("International" ∉ particulier_fiscal p)
       ∧ ("Holding" ∉ particulier_fiscal p)
       ∧ ("SCI" ∉ particulier_fiscal p)
       ∧ clients_particuliers_avec_tva p = false).
Proof.
  rewrite infer_risk_flags, !app_nil.
  by rewrite flags_sector_nil, flags_hr_nil, flags_rse_nil,
    flags_digital_nil, flags_transmission_nil, flags_fiscal_nil.
Qed.

(* ================================================================== *)
(** ** Further properties: the two engines on the same profile *)
(* ================================================================== *)

(** X15. On the same profile the two engines agree on these points: the
    site-management flag is raised exactly when the BTP pack is offered,
    the international-flows flag exactly with the "international" offer,
    the retirement flag exactly with "retraite", the succession flag
    exactly with "succession", the two digitalisation flags exactly with
    "digital_start" and "digital_full"; the works-council flag and the
    cadres flag both come with "social_plus"; and a "Renforcée" intensity
    comes with "social_plus", "btp_pack" or "international". *)
Theorem flags_match_offers (p : ClientProfile) :
  ∃ r, compute_offers p = Some r
    ∧ ("Gestion des chantiers et retenues de garantie"
         ∈ risk_flags (infer_segment p)
       ↔ "btp_pack" ∈ code <$> offers r)
    ∧ ("Flux internationaux (prix de transfert/TVA)"
         ∈ risk_flags (infer_segment p)
       ↔ "international" ∈ code <$> offers r)
    ∧ ("Horizon retraite à anticiper" ∈ risk_flags (infer_segment p)
       ↔ "retraite" ∈ code <$> offers r)
    ∧ ("Projet de succession / transmission" ∈ risk_flags (infer_segment p)
       ↔ "succession" ∈ code <$> offers r)
    ∧ ("Faible digitalisation (risque d'erreurs et coûts)"
         ∈ risk_flags (infer_segment p)
       ↔ "digital_start" ∈ code <$> offers r)
    ∧ ("Digitalisation partielle à structurer"
         ∈ risk_flags (infer_segment p)
       ↔ "digital_full" ∈ code <$> offers r)
    ∧ ("CSE / obligations sociales renforcées"
         ∈ risk_flags (infer_segment p)
       → "social_plus" ∈ code <$> offers r)
    ∧ ("Cadres & forfait jours" ∈ risk_flags (infer_segment p)
       → "social_plus" ∈ code <$> offers r)
    ∧ (compliance_intensity (infer_segment p) = "Renforcée"
       → "social_plus" ∈ code <$> offers r
         ∨ "btp_pack" ∈ code <$> offers r
         ∨ "international" ∈ code <$> offers r).
Proof.
  destruct (compute_offers_run p) as (r & Hr & _ & Hcodes & _).
  exists r. split; [done|]. rewrite Hcodes.
  rewrite flag_chantiers_iff, flag_international_iff, flag_retraite_iff,
    flag_succession_iff, flag_digital_low_iff, flag_digital_partial_iff,
    flag_cse_iff, flag_cadres_iff, intensity_iff.
  rewrite btp_pack_iff, international_iff, retraite_iff, succession_iff,
    digital_start_iff, digital_full_iff, social_plus_iff.
  tauto.
Qed.

(* ================================================================== *)
(** ** Further properties: from the form to the engines *)
(* ================================================================== *)

Lemma build_profile_fiscal f x :
  x ∈ particulier_fiscal (build_profile f)
  ↔ x ∈ f_particulier_fiscal f ∧ x ≠ "TVA particuliers".
Proof.
  cbn. rewrite !list_elem_of_In, filter_In, negb_true_iff, String.eqb_neq.
  done.
Qed.

(** X16. The profile built from the form holds the selected fiscal
    particularities in the order of the selection, without
    "TVA particuliers", which is turned into the consumer-VAT boolean:
    that boolean is set exactly when "TVA particuliers" is selected or the
    toggle is on. *)
Theorem build_profile_moves_tva (f : FormInput) :
  ("TVA particuliers" ∉ particulier_fiscal (build_profile f))
  ∧ particulier_fiscal (build_profile f) `sublist_of` f_particulier_fiscal f
  ∧ (∀ x, x ∈ particulier_fiscal (build_profile f)
          ↔ x ∈ f_particulier_fiscal f ∧ x ≠ "TVA particuliers")
  ∧ (clients_particuliers_avec_tva (build_profile f) = true
     ↔ "TVA particuliers" ∈ f_particulier_fiscal f
       ∨ f_clients_particuliers_avec_tva f = true).
Proof.
  split; [|split; [|split]].
  - rewrite build_profile_fiscal. tauto.
  - cbn. induction (f_particulier_fiscal f) as [|x l IH]; cbn; [done|].
    destruct (negb _); [by apply sublist_skip | by apply sublist_cons].
  - apply build_profile_fiscal.
  - cbn. by rewrite orb_true_iff, str_in_elem_of.
Qed.

(** X17. What the move of "TVA particuliers" does to the results: the
    engines raise the consumer-VAT risk flag whenever "TVA particuliers"
    is selected, and offer "fiscal_part" exactly when some other
    particularity is selected; a selection of "TVA particuliers" alone
    gives no "fiscal_part" offer. *)
Theorem tva_selection_effect (f : FormInput) :
  ("TVA particuliers" ∈ f_particulier_fiscal f →
   "Risque TVA B2C (règles spécifiques)"
     ∈ risk_flags (infer_segment (build_profile f)))
  ∧ ∃ r, compute_offers (build_profile f) = Some r
      ∧ ("fiscal_part" ∈ code <$> offers r
         ↔ ∃ x, x ∈ f_particulier_fiscal f ∧ x ≠ "TVA particuliers")
      ∧ (f_particulier_fiscal f = ["TVA particuliers"] →
         "fiscal_part" ∉ code <$> offers r).
Proof.
  split.
  - intros Hin. rewrite flag_tva_iff. cbn.
    apply orb_true_iff. left. by apply str_in_elem_of.
  - destruct (compute_offers_run (build_profile f)) as (r & Hr & _ & Hcodes & _).
    exists r. split; [done|]. rewrite Hcodes, fiscal_part_iff.
    assert (particulier_fiscal (build_profile f) ≠ []
            ↔ ∃ x, x ∈ f_particulier_fiscal f ∧ x ≠ "TVA particuliers") as Hne.
    { split.
      - intros Hne. destruct (particulier_fiscal (build_profile f)) as [|x l] eqn:E;
          [done|]. exists x. apply build_profile_fiscal. rewrite E. by left.
      - intros (x & Hx) Hnil. apply build_profile_fiscal in Hx.
        rewrite Hnil in Hx. by apply elem_of_nil in Hx. }
    split; [done|]. intros Hsel. rewrite Hne, Hsel.
    intros (x & Hx & Hnx). by apply list_elem_of_singleton in Hx.
Qed.

Lemma tva_selection_effect_witness :
  "Risque TVA B2C (règles spécifiques)"
    ∈ risk_flags (infer_segment (build_profile form_tva_only))
  ∧ ∃ r, compute_offers (build_profile form_tva_only) = Some r
      ∧ "fiscal_part" ∉ code <$> offers r.
Proof.
  destruct (tva_selection_effect form_tva_only) as (Hflag & r & Hr & _ & Hno).
  split; [apply Hflag; by left|].
  exists r. split; [done|]. by apply Hno.
Defined.

Lemma form_default_valid : form_valid form_default.
Proof.
  unfold form_valid, form_default. cbn.
  repeat split; try lia; try listed; constructor.
Qed.

(** X18. On a profile built from a valid form the three size cases cover
    everything: the label carries the Solo tag exactly for no employee or
    the contract type "Aucun salarié", the "TPE < 11" tag exactly for 1 to
    10 employees with another contract type, and the "PME ≥ 11" tag
    exactly for 11 employees or more with another contract type. *)
Theorem valid_form_size_tag (f : FormInput) :
  form_valid f →
  (size_tags_of (segment (infer_segment (build_profile f)))
   = ["Solo/Très petite structure"]
   ↔ f_nb_salaries f = 0 ∨ f_type_contrats f = "Aucun salarié")
  ∧ (size_tags_of (segment (infer_segment (build_profile f))) = ["TPE < 11"]
     ↔ 1 ≤ f_nb_salaries f ≤ 10 ∧ f_type_contrats f ≠ "Aucun salarié")
  ∧ (size_tags_of (segment (infer_segment (build_profile f))) = ["PME ≥ 11"]
     ↔ 11 ≤ f_nb_salaries f ∧ f_type_contrats f ≠ "Aucun salarié").
Proof.
  intros (Hnb & _). rewrite infer_size_tags. cbn.
  destruct (f_nb_salaries f =? 0) eqn:?,
    (String.eqb (f_type_contrats f) "Aucun salarié") eqn:?,
    (f_nb_salaries f <? 11) eqn:?; cbn; guard_props;
    repeat match goal with
           | |- _ ∧ _ => split
           | |- _ ↔ _ => split
           end;
    intros ?; try done; settle.
Qed.

Lemma valid_form_size_tag_witness :
  size_tags_of (segment (infer_segment (build_profile form_default)))
  = ["Solo/Très petite structure"]
  ↔ f_nb_salaries form_default = 0
    ∨ f_type_contrats form_default = "Aucun salarié".
Proof. apply (valid_form_size_tag form_default form_default_valid). Defined.

(** X19. On a profile built from a valid form the enumerated answers
    leave no gap: no digitalisation offer exactly for "Informatique
    avancée"; a client who wants coaching gets one of the two coaching
    packs; no "retraite" offer exactly for the horizon "Loin"; and a
    client sensitive to RSE gets no "rse_reporting" exactly for the impact
    "Faible/Non". *)
Theorem valid_form_enumerations (f : FormInput) :
  form_valid f →
  ∃ r, compute_offers (build_profile f) = Some r
    ∧ (f_digitalisation f = "Informatique avancée"
       ↔ ("digital_start" ∉ code <$> offers r)
         ∧ ("digital_full" ∉ code <$> offers r))
    ∧ (f_coaching_client f = true
       ↔ "coaching_light" ∈ code <$> offers r
         ∨ "coaching_pro" ∈ code <$> offers r)
    ∧ (f_proche_retraite f = "Loin" ↔ ("retraite" ∉ code <$> offers r))
    ∧ (f_rse_sensible f = true →
       (f_rse_pollution f = "Faible/Non"
        ↔ ("rse_reporting" ∉ code <$> offers r))).
Proof.
  intros (_ & _ & _ & Hpol & Hpat & Hdig & Hret & _).
  destruct (compute_offers_run (build_profile f)) as (r & Hr & _ & Hcodes & _).
  exists r. split; [done|]. rewrite Hcodes.
  rewrite digital_start_iff, digital_full_iff, coaching_light_iff,
    coaching_pro_iff, retraite_iff, rse_reporting_iff. cbn.
  unfold POLLUTION, PATRIMOINE, DIGITAL, HORIZON_RETRAITE in *.
  rewrite !elem_of_cons, !elem_of_nil in *.
  repeat match goal with H : _ ∨ _ |- _ => destruct H as [->|H] end;
    try done;
    repeat match goal with
           | |- _ ∧ _ => split
           | |- _ ↔ _ => split
           end;
    intros; try done; settle.
Qed.

Lemma valid_form_enumerations_witness :
  ∃ r, compute_offers (build_profile form_default) = Some r
    ∧ (f_digitalisation form_default = "Informatique avancée"
       ↔ ("digital_start" ∉ code <$> offers r)
         ∧ ("digital_full" ∉ code <$> offers r))
    ∧ (f_coaching_client form_default = true
       ↔ "coaching_light" ∈ code <$> offers r
         ∨ "coaching_pro" ∈ code <$> offers r)
    ∧ (f_proche_retraite form_default = "Loin"
       ↔ ("retraite" ∉ code <$> offers r))
    ∧ (f_rse_sensible form_default = true →
       (f_rse_pollution form_default = "Faible/Non"
        ↔ ("rse_reporting" ∉ code <$> offers r))).
Proof. apply (valid_form_enumerations form_default form_default_valid). Defined.

(* ================================================================== *)
(** ** Further properties: the display of the amounts *)
(* ================================================================== *)

Lemma digit_plain c :
  digit c → c ≠ ","%char ∧ c ≠ "."%char ∧ c ≠ " "%char ∧ c ≠ "-"%char.
Proof.
  unfold digit. rewrite !elem_of_cons, elem_of_nil.
  intros H. repeat (destruct H as [->|H]; [done|]). done.
Qed.

Lemma uint_digits d :
  Forall digit (list_ascii_of_string (NilEmpty.string_of_uint d)).
Proof.
  induction d; cbn; constructor; try done; unfold digit;
    apply (bool_decide_unpack _); by vm_compute.
Qed.

Lemma uint_digits_zero d :
  Forall digit (list_ascii_of_string (NilZero.string_of_uint d)).
Proof.
  destruct d; try apply (uint_digits (_ _)).
  cbn. constructor; [|done]. apply (bool_decide_unpack _). by vm_compute.
Qed.

Lemma chars_app s1 s2 :
  list_ascii_of_string (s1 +:+ s2)
  = list_ascii_of_string s1 ++ list_ascii_of_string s2.
Proof.
  induction s1 as [|c s1 IH]; [done|].
  change (list_ascii_of_string (String c s1 +:+ s2))
    with (c :: list_ascii_of_string (s1 +:+ s2)).
  by rewrite IH.
Qed.



Lemma group3_elems l :
  Forall digit l → Forall (λ c, digit c ∨ c = ","%char) (group3 l).
Proof.
  induction 1 as [|c l Hc Hl IH]; [done|]. cbn [group3].
  constructor; [by left|]. destruct (_ && _); [|done].
  constructor; [by right | done].
Qed.

Lemma space_groups_elems l :
  Forall digit l → Forall (λ c, digit c ∨ c = " "%char) (space_groups l).
Proof.
  intros Hl. unfold space_groups. apply Forall_fmap.
  eapply Forall_impl; [apply (group3_elems _ Hl)|]. cbn.
  intros c [Hc| ->]; [|by right]. left.
  destruct (digit_plain _ Hc) as (Hcomma & _).
  apply Ascii.eqb_neq in Hcomma. by rewrite Hcomma.
Qed.

Lemma space_groups_filter l :
  Forall digit l →
  List.filter (λ c, negb (Ascii.eqb c " ")) (space_groups l) = l.
Proof.
  unfold space_groups.
  induction 1 as [|c l Hc Hl IH]; [done|]. cbn [group3 map List.filter].
  destruct (digit_plain _ Hc) as (Hcomma & _ & Hspace & _).
  apply Ascii.eqb_neq in Hcomma, Hspace. rewrite Hcomma, Hspace. cbn [negb].
  f_equal. destruct (_ && _); [|done]. cbn. exact IH.
Qed.

Lemma str_int_sign n : str_int n = sign_of n +:+ str_int (Z.abs n).
Proof. by destruct n. Qed.

Lemma str_int_abs_digits n :
  Forall digit (list_ascii_of_string (str_int (Z.abs n))).
Proof. destruct n; apply uint_digits_zero. Qed.

Lemma format_thousands_eq n :
  format_thousands n
  = sign_of n
    +:+ string_of_list_ascii
          (group3 (list_ascii_of_string (str_int (Z.abs n)))).
Proof. by destruct n. Qed.

Lemma string_chars_inj s t :
  list_ascii_of_string s = list_ascii_of_string t → s = t.
Proof.
  intros H. rewrite <- (string_of_list_ascii_of_string s),
    <- (string_of_list_ascii_of_string t). by rewrite H.
Qed.

(** [euro] in one piece: the sign, the digits grouped by three with
    spaces, a space and the euro sign. *)
Lemma euro_eq n :
  euro n
  = sign_of n
    +:+ string_of_list_ascii
          (space_groups (list_ascii_of_string (str_int (Z.abs n))))
    +:+ " €".
Proof.
  apply string_chars_inj. unfold euro, replace_char.
  rewrite format_thousands_eq.
  rewrite !list_ascii_of_string_of_list_ascii, !chars_app,
    !list_ascii_of_string_of_list_ascii, !map_app.
  rewrite <- app_assoc.
  f_equal; [by destruct n|]. f_equal.
  unfold space_groups. rewrite map_map. apply map_ext_in.
  intros c Hc%list_elem_of_In.
  pose proof (group3_elems _ (str_int_abs_digits n)) as Hg.
  destruct (proj1 (Forall_forall _ _) Hg c Hc) as [Hd| ->]; [|done].
  destruct (digit_plain _ Hd) as (Hcomma & Hdot & _).
  apply Ascii.eqb_neq in Hcomma, Hdot. by rewrite Hcomma, Hdot.
Qed.

Lemma str_int_parse n :
  Z.of_int <$> NilZero.int_of_string (str_int n) = Some n.
Proof.
  unfold str_int. rewrite NilZero.isi.
  - cbn. by rewrite DecimalZ.of_to.
  - destruct n; cbn; [done| |done].
    intros [= H]. by apply Unsigned.to_uint_nonnil in H.
  - destruct n; cbn; [done|done|].
    intros [= H]. by apply Unsigned.to_uint_nonnil in H.
Qed.

(** X20. The amount that [euro] prints reads back: without its spaces it
    is the decimal writing of the amount followed by the euro sign, and
    that decimal writing parses to the amount; the printed text holds
    neither a comma nor a dot. *)
Theorem euro_reads_back (n : Z) :
  float_exact n →
  remove_spaces (euro n) = str_int n +:+ "€"
  ∧ Z.of_int <$> NilZero.int_of_string (str_int n) = Some n
  ∧ Forall (λ c, c ≠ ","%char ∧ c ≠ "."%char) (list_ascii_of_string (euro n)).
Proof.
  intros _. pose proof (str_int_abs_digits n) as Hd.
  split; [|split; [apply str_int_parse|]].
  - apply string_chars_inj. unfold remove_spaces.
    rewrite euro_eq, (str_int_sign n).
    rewrite list_ascii_of_string_of_list_ascii, !chars_app,
      list_ascii_of_string_of_list_ascii, !List.filter_app.
    rewrite (space_groups_filter _ Hd). cbn [list_ascii_of_string].
    rewrite <- app_assoc. f_equal. by destruct n.
  - rewrite euro_eq, !chars_app, list_ascii_of_string_of_list_ascii.
    rewrite !Forall_app. split; [|split].
    + destruct n; cbn; repeat constructor; done.
    + eapply Forall_impl; [apply (space_groups_elems _ Hd)|]. cbn.
      intros c [Hc| ->]; [|done]. by destruct (digit_plain _ Hc) as (? & ? & _).
    + cbn. repeat constructor; done.
Qed.

Lemma euro_reads_back_witness :
  remove_spaces (euro 10230) = str_int 10230 +:+ "€"
  ∧ Z.of_int <$> NilZero.int_of_string (str_int 10230) = Some 10230
  ∧ Forall (λ c, c ≠ ","%char ∧ c ≠ "."%char)
      (list_ascii_of_string (euro 10230)).
Proof. apply euro_reads_back. unfold float_exact. cbn. lia. Defined.



(* ================================================================== *)
(** ** Further properties: the export of the proposal *)
(* ================================================================== *)

Lemma replace_char_chars a b s :
  list_ascii_of_string (replace_char a b s)
  = map (λ c, if Ascii.eqb c a then b else c) (list_ascii_of_string s).
Proof. unfold replace_char. apply list_ascii_of_string_of_list_ascii. Qed.

Lemma export_filename_chars p :
  list_ascii_of_string (export_filename p)
  = list_ascii_of_string "/mnt/data/Proposition_"
    ++ map (λ c, if Ascii.eqb c " " then "_"%char else c)
         (list_ascii_of_string (nom_client p))
    ++ list_ascii_of_string ".md".
Proof. unfold export_filename. by rewrite !chars_app, replace_char_chars. Qed.

(** X22. The path that [export_proposal] opens is
    "/mnt/data/Proposition_", the name of the client with every space
    replaced by an underscore, and ".md"; whatever the name, the path
    holds no space. *)
Theorem export_filename_no_space (p : ClientProfile) :
  list_ascii_of_string (export_filename p)
  = list_ascii_of_string "/mnt/data/Proposition_"
    ++ map (λ c, if Ascii.eqb c " " then "_"%char else c)
         (list_ascii_of_string (nom_client p))
    ++ list_ascii_of_string ".md"
  ∧ Forall (λ c, c ≠ " "%char) (list_ascii_of_string (export_filename p)).
Proof.
  split; [apply export_filename_chars|].
  rewrite export_filename_chars, !Forall_app. split; [|split].
  - cbn. repeat constructor; done.
  - apply Forall_forall. intros c (c' & -> & _)%list_elem_of_fmap.
    by destruct (Ascii.eqb_spec c' " ").
  - cbn. repeat constructor; done.
Qed.

(** X23. Two clients get the same path exactly when their names are equal
    once the spaces are replaced by underscores: the names
    "Dupont SARL" and "Dupont_SARL" differ and share a path. *)
Theorem export_filename_collision (p q : ClientProfile) :
  (export_filename p = export_filename q
   ↔ replace_char " " "_" (nom_client p) = replace_char " " "_" (nom_client q))
  ∧ (nom_client (scenario_A "Dupont SARL" "CDI")
     ≠ nom_client (scenario_A "Dupont_SARL" "CDI")
     ∧ export_filename (scenario_A "Dupont SARL" "CDI")
       = export_filename (scenario_A "Dupont_SARL" "CDI")).
Proof.
  split; [|split; [done | reflexivity]]. split.
  - intros Heq. apply string_chars_inj.
    apply (f_equal list_ascii_of_string) in Heq.
    rewrite !export_filename_chars in Heq.
    apply app_inv_head, app_inv_tail in Heq.
    by rewrite !replace_char_chars.
  - intros Heq. unfold export_filename. by rewrite Heq.
Qed.

Lemma field_lines_count p : length (flat_map field_lines (asdict p)) = 15%nat.
Proof. reflexivity. Qed.

Lemma offer_lines_count rats os :
  (∀ o, o ∈ os → ∃ reason, rats !! libelle o = Some [reason]) →
  length (flat_map (offer_lines rats) os) = (2 * length os)%nat.
Proof.
  induction os as [|o os IH]; intros Hone; [done|].
  cbn [flat_map]. rewrite length_app, IH.
  - destruct (Hone o) as (reason & Hr); [by left|].
    unfold offer_lines. rewrite Hr. cbn. lia.
  - intros o' Ho'. apply Hone. by right.
Qed.

Lemma compute_offers_reasons p :
  ∃ r, compute_offers p = Some r
    ∧ (2 ≤ length (offers r) ≤ 16)%nat
    ∧ ∀ o, o ∈ offers r → ∃ reason, rationales r !! libelle o = Some [reason].
Proof.
  destruct (compute_offers_one_reason p) as (r & Hr & Hone).
  destruct (compute_offers_run p) as (r' & Hr' & _ & Hcodes & _).
  rewrite Hr in Hr'. injection Hr' as <-.
  exists r. split; [done|]. split.
  - rewrite <- (length_fmap code), Hcodes, length_fmap. apply fired_bounds.
  - intros o Ho. destruct (Hone (libelle o)) as [Hk Hlen]. cbn in Hk, Hlen.
    destruct (proj1 Hk) as [rs Hrs]; [by apply list_elem_of_fmap_2|].
    specialize (Hlen rs Hrs). destruct rs as [|reason [|]]; try done.
    by exists reason.
Qed.

(** X24. The document exported for the results of the two engines: every
    offer gives exactly two entries of the list of lines, its priced line
    and the line of its one reason (the default of the lookup of the
    reasons is never used), so the list has 37 entries plus one per risk
    flag and two per offer, between 41 and 79 in all. *)
Theorem export_document_lines (now : string) (p : ClientProfile) :
  ∃ r, compute_offers p = Some r
    ∧ (∀ o, o ∈ offers r →
         ∃ reason,
           rationales r !! libelle o = Some [reason]
           ∧ offer_lines (rationales r) o
             = [ "- **" +:+ libelle o +:+ "** — " +:+ euro (prix o)
                 +:+ " / mois ou forfait";
                 "  - Justification : " +:+ reason ])
    ∧ length (export_lines now p (infer_segment p) r)
      = (37 + length (risk_flags (infer_segment p))
         + 2 * length (offers r))%nat
    ∧ (41 ≤ length (export_lines now p (infer_segment p) r) ≤ 79)%nat.
Proof.
  destruct (compute_offers_reasons p) as (r & Hr & Hn & Hone).
  exists r. split; [done|]. split.
  { intros o Ho. destruct (Hone o Ho) as (reason & Hreason).
    exists reason. split; [done|]. unfold offer_lines. by rewrite Hreason. }
  assert (length (export_lines now p (infer_segment p) r)
          = (37 + length (risk_flags (infer_segment p))
             + 2 * length (offers r))%nat) as Hlen.
  { unfold export_lines.
    rewrite !length_app, field_lines_count, (offer_lines_count _ _ Hone).
    rewrite !length_map. cbn [length steps]. lia. }
  split; [done|]. rewrite Hlen.
  pose proof (risk_flags_count p). lia.
Qed.

(* ================================================================== *)
(** ** Further properties: the defaults of the form *)
(* ================================================================== *)

(** X25. When the answers that the script pre-fills are left at their
    computed defaults, the engines follow the other answers: with the
    default contract type and a count that the form allows, the segment
    is Solo exactly when there is no employee, and exactly then no social
    pack is offered; with the default cash toggle, "tresorerie" is
    offered exactly for the sectors E-commerce, BTP and Industrie; with
    the default wealth-planning toggle, "patrimoine_base" is offered
    exactly for the wealth tier "Important". *)
Theorem defaults_follow_answers (f : FormInput) :
  0 ≤ f_nb_salaries f →
  f_type_contrats f = default_type_contrats (f_nb_salaries f) →
  f_caisse f = default_caisse (f_secteur f) →
  f_patrimoniale f = default_patrimoniale (f_patrimoine_dirigeant f) →
  ∃ r, compute_offers (build_profile f) = Some r
    ∧ (size_tags_of (segment (infer_segment (build_profile f)))
       = ["Solo/Très petite structure"] ↔ f_nb_salaries f = 0)
    ∧ (f_nb_salaries f = 0
       ↔ ("social_plus" ∉ code <$> offers r)
         ∧ ("social_basique" ∉ code <$> offers r))
    ∧ ("tresorerie" ∈ code <$> offers r
       ↔ f_secteur f ∈ ["E-commerce"; "BTP"; "Industrie"])
    ∧ ("patrimoine_base" ∈ code <$> offers r
       ↔ f_patrimoine_dirigeant f = "Important").
Proof.
  intros Hnb Htc Hca Hpa.
  destruct (compute_offers_run (build_profile f)) as (r & Hr & _ & Hcodes & _).
  exists r. split; [done|]. rewrite Hcodes.
  rewrite social_plus_iff, social_basique_iff, tresorerie_iff,
    patrimoine_base_iff, infer_size_tags. cbn.
  rewrite Htc, Hca, Hpa. unfold default_type_contrats, default_caisse,
    default_patrimoniale.
  split; [|split; [|split]].
  - destruct (f_nb_salaries f =? 0) eqn:E; cbn; guard_props; [done|].
    destruct (f_nb_salaries f <? 11); split; intros ?; done.
  - destruct (f_presence_cadres f); split; intros; lia.
  - destruct (str_in _ _) eqn:E; guard_props_in;
      rewrite !elem_of_cons, elem_of_nil in *; split; intros ?; settle.
  - rewrite String.eqb_eq. tauto.
Qed.

Lemma defaults_follow_answers_witness :
  ∃ r, compute_offers (build_profile form_default) = Some r
    ∧ (size_tags_of (segment (infer_segment (build_profile form_default)))
       = ["Solo/Très petite structure"] ↔ f_nb_salaries form_default = 0)
    ∧ (f_nb_salaries form_default = 0
       ↔ ("social_plus" ∉ code <$> offers r)
         ∧ ("social_basique" ∉ code <$> offers r))
    ∧ ("tresorerie" ∈ code <$> offers r
       ↔ f_secteur form_default ∈ ["E-commerce"; "BTP"; "Industrie"])
    ∧ ("patrimoine_base" ∈ code <$> offers r
       ↔ f_patrimoine_dirigeant form_default = "Important").
Proof. apply defaults_follow_answers; [cbn; lia | reflexivity..]. Defined.
